(** * Surfactant: relationship resolvers, the SBOM path resolver and
    plugin configuration lookup

    A shallow embedding of
    - [surfactant/context.py] ([ContextEntry.get_pconf]),
    - [surfactant/relationships/java_relationship.py],
    - [surfactant/relationships/pe_relationship.py],
    together with a model of the SBOM store they call into.

    Python values are embedded as follows.  A [dict] that is only looked up by
    key is a [gmap]; a [dict] whose iteration order is observable
    ([java_classes.values()]) is an association list in insertion order; a
    [set] is a [gset]; an exception is the [Raise] branch of [pyresult]. *)

From stdpp Require Import gmap strings list fin_maps fin_sets.
From Stdlib Require Import Ascii String ZArith.

Open Scope string_scope.
Set Warnings "-register-all,-clear-no-such-hyp".

(** ** Python results *)

Inductive pyexc :=
| KeyError (key : string)
| TypeError
| AttributeError.

Inductive pyresult (A : Type) :=
| Ok (a : A)
| Raise (e : pyexc).
Arguments Ok {A} a.
Arguments Raise {A} e.

#[global] Instance pyresult_ret : MRet pyresult := λ A a, Ok a.

#[global] Instance pyresult_bind : MBind pyresult := λ A B f m,
  match m with
  | Ok a => f a
  | Raise e => Raise e
  end.

(** Lookup in a dict kept as an association list in insertion order. *)
Fixpoint dict_get {V} (d : list (string * V)) (k : string) : option V :=
  match d with
  | [] => None
  | (k', v) :: d' => if bool_decide (k' = k) then Some v else dict_get d' k
  end.

(** ** Dynamically typed values: plugin configuration *)

Module Context.

(** The values a plugin configuration can hold ([Dict[str, Any]]). *)
Inductive pyval :=
| PNone
| PBool (b : bool)
| PInt (z : Z)
| PStr (s : string)
| PList (l : list pyval)
| PDict (d : list (string * pyval)).

(** Python truth value: [None], [False], [0], the empty string, the empty
    list and the empty dict are falsy. *)
Definition truthy (v : pyval) : bool :=
  match v with
  | PNone => false
  | PBool b => b
  | PInt z => negb (z =? 0)%Z
  | PStr s => negb (bool_decide (s = ""))
  | PList l => match l with [] => false | _ :: _ => true end
  | PDict d => match d with [] => false | _ :: _ => true end
  end.

(** [v[k]] for a string key: [KeyError] on a mapping without the key,
    [TypeError] on a value that is not a mapping. *)
Definition subscript (v : pyval) (k : string) : pyresult pyval :=
  match v with
  | PDict d =>
      match dict_get d k with
      | Some x => Ok x
      | None => Raise (KeyError k)
      end
  | _ => Raise TypeError
  end.

Record ContextEntry := {
  extractPaths : list string;
  archive : option string;
  installPrefix : option string;
  omitUnrecognizedTypes : option bool;
  includeFileExts : option (list string);
  excludeFileExts : option (list string);
  skipProcessingArchive : option bool;
  containerPrefix : option string;
  pluginConf : pyval
}.

(** [ContextEntry.get_pconf]; the logging calls have no effect on the
    result. *)
Definition get_pconf (self : ContextEntry) (name conf_key : string)
    (default : pyval) : pyresult pyval :=
  if negb (truthy (pluginConf self)) then Ok default
  else
    module ← subscript (pluginConf self) name;
    if negb (truthy module) then Ok default
    else
      field ← subscript module conf_key;
      if negb (truthy field) then Ok default
      else Ok field.

Definition entry_with (conf : pyval) : ContextEntry :=
  {| extractPaths := []; archive := None; installPrefix := None;
     omitUnrecognizedTypes := None; includeFileExts := None;
     excludeFileExts := None; skipProcessingArchive := Some false;
     containerPrefix := None; pluginConf := conf |}.

(** The three situations in which [get_pconf] takes a [return default]. *)
Definition default_case (self : ContextEntry) (name conf_key : string) : Prop :=
  truthy (pluginConf self) = false
  ∨ (∃ module, subscript (pluginConf self) name = Ok module
               ∧ truthy module = false)
  ∨ (∃ module field, subscript (pluginConf self) name = Ok module
               ∧ subscript module conf_key = Ok field
               ∧ truthy field = false).

End Context.

(** ** The SBOM data model *)

(** One entry of a [javaClasses] mapping.  A key that is absent is [None]:
    the code reads both with [class_info.get(key, [])]. *)
Record class_info := {
  javaImports : option (list string);
  javaExports : option (list string)
}.

(** The values found under the keys the resolvers read. *)
Inductive mdvalue :=
| VNone
| VStrList (l : list string)
| VClasses (cs : list (string * class_info)).

(** A metadata item of a software entry: a dict, or an object of another
    type (plugins may emit dataclasses). *)
Inductive MetadataItem :=
| MdDict (d : gmap string mdvalue)
| MdObject.

Record Software := {
  UUID : string;
  fileName : list string;
  installPath : option (list string);
  metadata : option (list MetadataItem);
  sha256 : option string
}.

Record Relationship := {
  xUUID : string;
  yUUID : string;
  relationship : string
}.

#[global] Instance Relationship_eq_dec : EqDecision Relationship.
Proof. solve_decision. Defined.


(** ** Paths *)

Module Paths.

Definition slash : ascii := "/"%char.
Definition backslash : ascii := "\"%char.

Fixpoint map_chars (f : ascii → ascii) (s : string) : string :=
  match s with
  | EmptyString => EmptyString
  | String c r => String (f c) (map_chars f r)
  end.

Definition to_posix (s : string) : string :=
  map_chars (λ c, if bool_decide (c = backslash) then slash else c) s.

Definition lower_char (c : ascii) : ascii :=
  let n := nat_of_ascii c in
  if bool_decide (65 ≤ n ∧ n ≤ 90)%nat then ascii_of_nat (n + 32) else c.

(** The key used for case-insensitive comparison. *)
Definition casefold (s : string) : string := map_chars lower_char s.

(** [split_on c acc s]: the pieces of [s] between occurrences of [c];
    [acc] is the piece being read. *)
Fixpoint split_on (c : ascii) (acc s : string) : list string :=
  match s with
  | EmptyString => [acc]
  | String x r =>
      if bool_decide (x = c) then acc :: split_on c "" r
      else split_on c (acc ++ String x "") r
  end.

Definition segments (p : string) : list string := split_on slash "" p.

Definition join (segs : list string) : string := String.concat "/" segs.

(** Modelled from the spec: [surfactant.utils.paths.normalize_path] is not
    among the sources.  Section 4.1: backslashes become forward slashes, a
    base directory is joined with a file name when both are given, and case
    is left untouched. *)
Definition normalize_path (base name : string) : string :=
  let b := to_posix base in
  let n := to_posix name in
  if bool_decide (b = "") then n
  else if bool_decide (n = "") then b
  else b ++ "/" ++ n.

Definition normalize (path : string) : string := to_posix path.

(** [pathlib.PureWindowsPath(p).parent.as_posix()] for a path without dot
    segments and without repeated or trailing separators: the last
    component is dropped; a bare name has parent [.], and the parent of a
    child of a root keeps the root's separator. *)
Definition windows_parent (p : string) : string :=
  match reverse (segments (to_posix p)) with
  | [] | [_] => "."
  | _ :: rest =>
      let d := join (reverse rest) in
      if bool_decide (d = "") then "/"
      else if bool_decide (String.length d = 2%nat ∧ String.get 1 d = Some ":"%char)
           then d ++ "/"
      else d
  end.

(** All the ancestors of a path, outermost first, ending with the path
    itself: [/usr/bin/ls] gives [/usr], [/usr/bin], [/usr/bin/ls]. *)
Definition ancestors (p : string) : list string :=
  let segs := segments p in
  filter (λ a, a ≠ "") ((λ k, join (take k segs)) <$> seq 1 (List.length segs)).

End Paths.


(** ** The filesystem graph *)

Module FsTree.

Inductive symlink_kind := file | directory.

(** Modelled from the spec: the graph class behind [sbom.fs_tree] is not
    among the sources.  Sections 3 and 4.2: path nodes in insertion order,
    an optional owning software UUID per node, containment edges from a
    directory to its immediate children, alias edges from a symlink to its
    target, and the queue of directory symlinks whose expansion is
    deferred. *)
Record t := {
  nodes : list string;
  owner : gmap string string;
  containment : list (string * string);
  alias : list (string * string);
  pending : list (string * string)
}.

Definition empty : t :=
  {| nodes := []; owner := ∅; containment := []; alias := []; pending := [] |}.

Definition add_once {A} `{EqDecision A} (x : A) (l : list A) : list A :=
  if bool_decide (x ∈ l) then l else l ++ [x].

Definition add_node (n : string) (g : t) : t :=
  {| nodes := add_once n (nodes g); owner := owner g;
     containment := containment g; alias := alias g; pending := pending g |}.

Definition add_containment (a b : string) (g : t) : t :=
  let g := add_node b (add_node a g) in
  {| nodes := nodes g; owner := owner g;
     containment := add_once (a, b) (containment g);
     alias := alias g; pending := pending g |}.

Definition add_alias (a b : string) (g : t) : t :=
  let g := add_node b (add_node a g) in
  {| nodes := nodes g; owner := owner g; containment := containment g;
     alias := add_once (a, b) (alias g); pending := pending g |}.

Definition tag (n : string) (u : string) (g : t) : t :=
  {| nodes := nodes g; owner := <[n := u]> (owner g);
     containment := containment g; alias := alias g; pending := pending g |}.

(** Consecutive pairs of a chain of ancestors. *)
Fixpoint chain (l : list string) : list (string * string) :=
  match l with
  | a :: (b :: _) as r => (a, b) :: chain r
  | _ => []
  end.

(** [add_path(path, ownerUUID?)]: every ancestor becomes a node, consecutive
    ancestors are linked by containment, and the terminal node is tagged
    when an owner is given (a later tag replaces an earlier one). *)
Definition add_path (path : string) (ownerUUID : option string) (g : t) : t :=
  let anc := Paths.ancestors (Paths.normalize path) in
  let g := foldl (λ g n, add_node n g) g anc in
  let g := foldl (λ g e, add_containment e.1 e.2 g) g (chain anc) in
  match ownerUUID, last anc with
  | Some u, Some n => tag n u g
  | _, _ => g
  end.

(** [add_symlink(source, target, kind)]: an alias edge between the
    normalized paths; a directory symlink is also queued. *)
Definition add_symlink (source target : string) (kind : symlink_kind) (g : t) : t :=
  let s := Paths.normalize source in
  let d := Paths.normalize target in
  let g := add_alias s d g in
  match kind with
  | file => g
  | directory =>
      {| nodes := nodes g; owner := owner g; containment := containment g;
         alias := alias g; pending := pending g ++ [(s, d)] |}
  end.

Definition has_node (g : t) (n : string) : bool := bool_decide (n ∈ nodes g).

Definition has_edge (g : t) (a b : string) : bool :=
  bool_decide ((a, b) ∈ containment g) || bool_decide ((a, b) ∈ alias g).

(** The destination of the alias edge that leaves [n]: the one recorded
    first when there are several. *)
Definition alias_target (g : t) (n : string) : option string :=
  (λ r, r.2.2) <$> list_find (λ e, e.1 = n) (alias g).

Inductive resolution :=
| Found (u : string)
| NoMatch
| OutOfFuel.

(** Modelled from the spec: the loop of the path resolver, section 4.3.
    [visited] is the set of nodes seen earlier in this call.  An owner tag
    on the current node ends the walk; otherwise the alias edge is followed
    unless there is none or it leads to a node already seen.  [fuel] bounds
    the number of alias edges followed. *)
Fixpoint walk (g : t) (fuel : nat) (visited : gset string) (current : string)
    : resolution :=
  match owner g !! current with
  | Some u => Found u
  | None =>
      match alias_target g current with
      | None => NoMatch
      | Some dst =>
          if bool_decide (dst ∈ visited ∪ {[current]}) then NoMatch
          else
            match fuel with
            | 0 => OutOfFuel
            | S fuel' => walk g fuel' (visited ∪ {[current]}) dst
            end
      end
  end.

(** The node a query starts from: the node with that path, or, when case is
    to be ignored, the first node whose case-folded path is that of the
    query. *)
Definition start_node (g : t) (path : string) (case_insensitive : bool)
    : option string :=
  if case_insensitive then
    snd <$> list_find (λ n, Paths.casefold n = Paths.casefold path) (nodes g)
  else if bool_decide (path ∈ nodes g) then Some path else None.

(** [resolve(path, case_insensitive)].  No walk follows more alias edges
    than the graph has, so the fuel given here is never used up (see
    [FsTreeFacts.walk_fuel_suffices]). *)
Definition resolve_outcome (g : t) (path : string) (case_insensitive : bool)
    : resolution :=
  match start_node g (Paths.normalize path) case_insensitive with
  | None => NoMatch
  | Some n => walk g (List.length (alias g)) ∅ n
  end.

Definition resolve (g : t) (path : string) (case_insensitive : bool)
    : option string :=
  match resolve_outcome g path case_insensitive with
  | Found u => Some u
  | NoMatch | OutOfFuel => None
  end.

(** The nodes an alias edge leaves from. *)
Definition sources (g : t) : gset string := list_to_set (alias g).*1.

End FsTree.


(** ** The SBOM store *)


(** Modelled from the spec: the [SBOM] class of [surfactant.sbomtypes] is not
    among the sources.  Section 4.4: the store owns the software collection,
    the relationships and the filesystem graph.  [sbom_id] stands for the
    identity of the Python object: two stores are the same instance exactly
    when their identities agree. *)
Record SBOM := {
  sbom_id : nat;
  software : list Software;
  relationships : list Relationship;
  fs_tree : FsTree.t
}.

Module Store.

Definition new (id : nat) : SBOM :=
  {| sbom_id := id; software := []; relationships := [];
     fs_tree := FsTree.empty |}.

Definition with_fs_tree (g : FsTree.t) (sbom : SBOM) : SBOM :=
  {| sbom_id := sbom_id sbom; software := software sbom;
     relationships := relationships sbom; fs_tree := g |}.

(** [add_software(entity)]: the entity joins the collection and each of its
    install paths is added to the graph, tagged with the entity's UUID. *)
Definition add_software (sw : Software) (sbom : SBOM) : SBOM :=
  {| sbom_id := sbom_id sbom;
     software := software sbom ++ [sw];
     relationships := relationships sbom;
     fs_tree := foldl (λ g p, FsTree.add_path p (Some (UUID sw)) g)
                  (fs_tree sbom) (default [] (installPath sw)) |}.

Definition record_symlink (source target : string)
    (subtype : FsTree.symlink_kind) (sbom : SBOM) : SBOM :=
  with_fs_tree (FsTree.add_symlink source target subtype (fs_tree sbom)) sbom.

Definition find_software_entry (sbom : SBOM) (uuid : string) : option Software :=
  snd <$> list_find (λ sw, UUID sw = uuid) (software sbom).

(** [get_software_by_path(path, case_insensitive=False)]: the path resolver's
    answer, mapped to the software entity with that UUID. *)
Definition get_software_by_path (sbom : SBOM) (path : string)
    (case_insensitive : bool) : option Software :=
  FsTree.resolve (fs_tree sbom) path case_insensitive ≫= find_software_entry sbom.

(** *** Export *)









(** *** Reconstruction *)













End Store.


(** ** Calls into the store *)

Open Scope list_scope.

(** What a resolver asks of its collaborators, in the order it asks. *)
Inductive event :=
| EvPathQuery (path : string) (case_insensitive : bool)
| EvLegacyInstalled (probedirs : list string) (fname : string)
| EvLegacyExport (import_name : string).

#[global] Instance event_eq_dec : EqDecision event.
Proof. solve_decision. Defined.

Definition uses (dependent_uuid uuid : string) : Relationship :=
  {| xUUID := dependent_uuid; yUUID := uuid; relationship := "Uses" |}.

Definition is_path_query (ev : event) : Prop :=
  ∃ path case_insensitive, ev = EvPathQuery path case_insensitive.

Definition is_legacy (ev : event) : Prop :=
  (∃ probedirs fname, ev = EvLegacyInstalled probedirs fname)
  ∨ (∃ import_name, ev = EvLegacyExport import_name).

(** A [for] loop whose body can raise: the state reached so far is kept and
    the remaining items are not visited. *)
Fixpoint for_each {S A} (body : S → A → S * option pyexc) (s : S) (l : list A)
    : S * option pyexc :=
  match l with
  | [] => (s, None)
  | x :: r =>
      match body s x with
      | (s', None) => for_each body s' r
      | (s', Some e) => (s', Some e)
      end
  end.

Module WindowsUtils.

(** Two Windows paths are the same path when they agree up to the kind of
    separator and the case of letters. *)
Definition same_windows_path (a b : string) : bool :=
  bool_decide (Paths.casefold (Paths.to_posix a) = Paths.casefold (Paths.to_posix b)).

(** Modelled from the spec: [_internal.windows_utils.find_installed_software]
    is not among the sources.  Section 4.5: the import's file name, placed in
    each probe directory, is matched against the install paths of all the
    entries of the store; entries without install path are skipped. *)
Definition find_installed_software (sbom : SBOM) (probedirs : list string)
    (filename : string) : list Software :=
  e ← software sbom;
  match installPath e with
  | None => []
  | Some ipaths =>
      pdir ← probedirs;
      ifile ← ipaths;
      if same_windows_path (Paths.normalize_path pdir filename) ifile
      then [e] else []
  end.

End WindowsUtils.

(** ** The Java resolver *)

Module Java.

Definition has_required_fields (md : MetadataItem) : bool :=
  match md with
  | MdDict d => bool_decide (is_Some (d !! "javaClasses"))
  | MdObject => false
  end.

(** The class attributes of [_ExportDict].  [sbom_ref] holds the identity of
    the store the index was built from; a weak reference whose store is gone
    answers [None] and so is the same as no store that is still alive. *)
Record ExportDict := {
  sbom_ref : option nat;
  supplied_by : gmap string string
}.

Definition initial : ExportDict := {| sbom_ref := None; supplied_by := ∅ |}.

Definition add_exports (uuid : string) (supplied : gmap string string)
    (class_info : class_info) : gmap string string :=
  foldl (λ m export, <[export := uuid]> m) supplied
    (default [] (javaExports class_info)).

(** The body of [for md in software_entry.metadata].  A non-empty list under
    [javaClasses] has no [values()]. *)
Definition scan_metadata (uuid : string) (supplied : gmap string string)
    (md : MetadataItem) : gmap string string * option pyexc :=
  match md with
  | MdObject => (supplied, None)
  | MdDict d =>
      match d !! "javaClasses" with
      | None | Some VNone | Some (VStrList []) => (supplied, None)
      | Some (VStrList (_ :: _)) => (supplied, Some AttributeError)
      | Some (VClasses java_classes) =>
          (foldl (λ m kv, add_exports uuid m kv.2) supplied java_classes, None)
      end
  end.

(** The body of [for software_entry in sbom.software]. *)
Definition scan_entry (supplied : gmap string string) (software_entry : Software)
    : gmap string string * option pyexc :=
  match metadata software_entry with
  | None => (supplied, None)
  | Some mds => for_each (scan_metadata (UUID software_entry)) supplied mds
  end.

(** [_ExportDict.create_export_dict]: the class state after the call, and
    the exception that ended it, if any. *)
Definition create_export_dict (cls : ExportDict) (sbom : SBOM)
    : ExportDict * option pyexc :=
  if bool_decide (sbom_ref cls = Some (sbom_id sbom)) then (cls, None)
  else
    let '(supplied, exc) := for_each scan_entry ∅ (software sbom) in
    ({| sbom_ref := Some (sbom_id sbom); supplied_by := supplied |}, exc).

Definition get_supplier (cls : ExportDict) (import_name : string) : option string :=
  supplied_by cls !! import_name.

(** The body of [for import_name in class_info.get("javaImports", [])].
    Phase 1 is a TODO in the source: [supplier_uuid] is still [None] when
    phase 2 tests it. *)
Definition resolve_import (cls : ExportDict) (dependent_uuid : string)
    (st : list Relationship * list event) (import_name : string)
    : list Relationship * list event :=
  let '(relationships, log) := st in
  let supplier_uuid : option string := None in
  let '(supplier_uuid, log) :=
    match supplier_uuid with
    | None => (get_supplier cls import_name, log ++ [EvLegacyExport import_name])
    | Some _ => (supplier_uuid, log)
    end in
  match supplier_uuid with
  | Some u =>
      if bool_decide (u ≠ "") && bool_decide (u ≠ dependent_uuid) then
        let rel := {| xUUID := dependent_uuid; yUUID := u; relationship := "Uses" |} in
        if bool_decide (rel ∈ relationships) then (relationships, log)
        else (relationships ++ [rel], log)
      else (relationships, log)
  | None => (relationships, log)
  end.

Definition resolve_classes (cls : ExportDict) (dependent_uuid : string)
    (java_classes : list (string * class_info))
    : list Relationship * list event :=
  foldl (λ st kv,
           foldl (resolve_import cls dependent_uuid) st
             (default [] (javaImports kv.2)))
    ([], []) java_classes.

(** [establish_relationships(sbom, software, metadata)]: the class state
    after the call, what the call returns or raises, and its calls into the
    store. *)
Definition establish_relationships (cls : ExportDict) (sbom : SBOM)
    (software : Software) (md : MetadataItem)
    : ExportDict * pyresult (option (list Relationship)) * list event :=
  if negb (has_required_fields md) then (cls, Ok None, [])
  else
    match md with
    | MdDict d =>
        match d !! "javaClasses" with
        | Some java_classes =>
            let dependent_uuid := UUID software in
            let '(cls, exc) := create_export_dict cls sbom in
            match exc with
            | Some e => (cls, Raise e, [])
            | None =>
                match java_classes with
                | VClasses java_classes =>
                    let '(relationships, log) :=
                      resolve_classes cls dependent_uuid java_classes in
                    (cls, Ok (Some relationships), log)
                | VNone | VStrList _ => (cls, Raise AttributeError, [])
                end
            end
        | None => (cls, Raise (KeyError "javaClasses"), [])
        end
    | MdObject => (cls, Raise TypeError, [])
    end.

(** The exports a metadata item declares, in the order the scan meets
    them. *)
Definition metadata_exports (md : MetadataItem) : list string :=
  match md with
  | MdDict d =>
      match d !! "javaClasses" with
      | Some (VClasses java_classes) =>
          kv ← java_classes; default [] (javaExports kv.2)
      | _ => []
      end
  | MdObject => []
  end.

(** The exports an entry declares. *)
Definition declared_exports (e : Software) : list string :=
  default [] (metadata e) ≫= metadata_exports.

(** [supplied_by[x] = uuid] for each [x] of a list, in order. *)
Definition insert_all (uuid : string) (m : gmap string string)
    (names : list string) : gmap string string :=
  foldl (λ m x, <[x := uuid]> m) m names.

(** The index after scanning the entries [l], had no scan raised. *)
Definition index_of (m : gmap string string) (l : list Software)
    : gmap string string :=
  foldl (λ m e, insert_all (UUID e) m (declared_exports e)) m l.

(** What holds of the relationships and of the calls made so far, at every
    point of the loops of [establish_relationships]. *)
Definition invariant (dependent_uuid : string)
    (st : list Relationship * list event) : Prop :=
  NoDup st.1
  ∧ (∀ r, r ∈ st.1 → ∃ u, r = uses dependent_uuid u ∧ u ≠ dependent_uuid)
  ∧ (∀ ev, ev ∈ st.2 → ∃ x, ev = EvLegacyExport x).

(** The imports of a [javaClasses] mapping, in the order the loops of
    [establish_relationships] visit them. *)
Definition declared_imports (java_classes : list (string * class_info))
    : list string :=
  kv ← java_classes; default [] (javaImports kv.2).

End Java.

(** ** The PE resolver *)

Module PE.

Definition field_map : list (string * string) :=
  [("peImport", "Direct"); ("peBoundImport", "Bound"); ("peDelayImport", "Delay")].

(** [any(k in metadata for k in (...))]: the membership test of an object
    that is no container raises [TypeError]. *)
Definition has_required_fields (md : MetadataItem) : pyresult bool :=
  match md with
  | MdDict d =>
      Ok (existsb (λ k, bool_decide (is_Some (d !! k)))
            ["peImport"; "peBoundImport"; "peDelayImport"])
  | MdObject => Raise TypeError
  end.

(** [metadata[field] or []], as the sequence the loop over it visits:
    iterating a mapping visits its keys. *)
Definition entries_of (v : mdvalue) : list string :=
  match v with
  | VNone => []
  | VStrList l => l
  | VClasses cs => cs.*1
  end.

Section resolver.

(** The collaborators of the resolver: the store's path query, the legacy
    lookup, the path normalizer and [PureWindowsPath(p).parent.as_posix()]. *)
Variable get_software_by_path : SBOM → string → bool → option Software.
Variable find_installed_software : SBOM → list string → string → list Software.
Variable normalize_path : string → string → string.
Variable windows_parent : string → string.

Definition probedirs_of (sw : Software) : list string :=
  windows_parent <$> default [] (installPath sw).

(** The body of [for directory in probedirs]. *)
Definition probe (sbom : SBOM) (dependent_uuid fname : string)
    (st : gset string * list event) (directory : string)
    : gset string * list event :=
  let '(matched_uuids, log) := st in
  let full_path := normalize_path directory fname in
  let match_ := get_software_by_path sbom full_path true in
  let log := log ++ [EvPathQuery full_path true] in
  match match_ with
  | Some m =>
      if bool_decide (UUID m ≠ dependent_uuid)
      then (matched_uuids ∪ {[UUID m]}, log)
      else (matched_uuids, log)
  | None => (matched_uuids, log)
  end.

(** Phase 1 for one import. *)
Definition phase1 (sbom : SBOM) (sw : Software) (fname : string)
    : gset string * list event :=
  foldl (probe sbom (UUID sw) fname) (∅, []) (probedirs_of sw).

(** Phase 2 for one import: only when phase 1 matched nothing. *)
Definition phase2 (sbom : SBOM) (sw : Software) (fname : string)
    (matched_uuids : gset string) : gset string * list event :=
  if bool_decide (matched_uuids = ∅) then
    (foldl (λ m e, m ∪ {[UUID e]}) matched_uuids
       (find_installed_software sbom (probedirs_of sw) fname),
     [EvLegacyInstalled (probedirs_of sw) fname])
  else (matched_uuids, []).

Definition emit (dependent_uuid : string) (relationships : list Relationship)
    (uuid : string) : list Relationship :=
  let rel := {| xUUID := dependent_uuid; yUUID := uuid; relationship := "Uses" |} in
  if bool_decide (rel ∈ relationships) then relationships
  else relationships ++ [rel].

(** The body of [for fname in peImports]. *)
Definition resolve_import (sbom : SBOM) (sw : Software)
    (st : list Relationship * list event) (fname : string)
    : list Relationship * list event :=
  if bool_decide (fname = "") then st
  else
    let '(relationships, log) := st in
    let '(matched_uuids, log1) := phase1 sbom sw fname in
    let '(matched_uuids, log2) := phase2 sbom sw fname matched_uuids in
    (foldl (emit (UUID sw)) relationships (elements matched_uuids),
     log ++ log1 ++ log2).

(** [get_windows_pe_dependencies(sbom, sw, peImports)]: the relationships
    returned and the calls into the store. *)
Definition get_windows_pe_dependencies (sbom : SBOM) (sw : Software)
    (peImports : list string) : list Relationship * list event :=
  match installPath sw with
  | None => ([], [])
  | Some _ => foldl (resolve_import sbom sw) ([], []) peImports
  end.

(** [establish_relationships(sbom, software, metadata)]. *)
Definition establish_relationships (sbom : SBOM) (software : Software)
    (md : MetadataItem) : pyresult (option (list Relationship)) * list event :=
  match has_required_fields md with
  | Raise e => (Raise e, [])
  | Ok false => (Ok None, [])
  | Ok true =>
      match md with
      | MdDict d =>
          let '(relationships, log) :=
            foldl (λ st fl,
                     match d !! fl.1 with
                     | Some v =>
                         let '(rels, l) :=
                           get_windows_pe_dependencies sbom software (entries_of v) in
                         (st.1 ++ rels, st.2 ++ l)
                     | None => st
                     end)
              ([], []) field_map in
          (Ok (Some relationships), log)
      | MdObject => (Raise TypeError, [])
      end
  end.

(** The phase-1 query for a probe directory. *)
Definition query (fname directory : string) : event :=
  EvPathQuery (normalize_path directory fname) true.

(** A probe directory where the path resolver finds an entity other than
    the subject. *)
Definition structural_match (sbom : SBOM) (sw : Software) (fname u : string)
    : Prop :=
  ∃ directory m,
    directory ∈ probedirs_of sw
    ∧ get_software_by_path sbom (normalize_path directory fname) true = Some m
    ∧ UUID m = u ∧ u ≠ UUID sw.

(** The calls one import adds to the log. *)
Definition import_log (sbom : SBOM) (sw : Software) (fname : string)
    : list event :=
  if bool_decide (fname = "") then []
  else (phase1 sbom sw fname).2
       ++ (phase2 sbom sw fname (phase1 sbom sw fname).1).2.

(** The UUIDs one import resolves to, after both phases. *)
Definition resolved_uuids (sbom : SBOM) (sw : Software) (fname : string)
    : gset string :=
  (phase2 sbom sw fname (phase1 sbom sw fname).1).1.

(** An entry the legacy lookup returns for the import. *)
Definition legacy_match (sbom : SBOM) (sw : Software) (fname u : string)
    : Prop :=
  ∃ e, e ∈ find_installed_software sbom (probedirs_of sw) fname ∧ UUID e = u.

(** What one import table contributes to the result of
    [establish_relationships]. *)
Definition field_relationships (sbom : SBOM) (software : Software)
    (d : gmap string mdvalue) (field : string) : list Relationship :=
  match d !! field with
  | Some v => (get_windows_pe_dependencies sbom software (entries_of v)).1
  | None => []
  end.

End resolver.

End PE.

(** The resolvers running against the store of this development. *)
Module Model.

Definition pe_dependencies :=
  PE.get_windows_pe_dependencies Store.get_software_by_path
    WindowsUtils.find_installed_software Paths.normalize_path
    Paths.windows_parent.

Definition pe_establish_relationships :=
  PE.establish_relationships Store.get_software_by_path
    WindowsUtils.find_installed_software Paths.normalize_path
    Paths.windows_parent.

End Model.

(** ** Stores of the tests and of the examples *)

Module Examples.

(** The store of [test_get_software_by_path_symlink_cycle_guard]. *)
Definition cycle_store : SBOM :=
  Store.record_symlink "/b" "/a" FsTree.file
    (Store.record_symlink "/a" "/b" FsTree.file (Store.new 0)).





(** The two entries of [test_legacy_export_match], and a second declarer of
    the same export. *)
Definition hello : string := "com.example.HelloWorld".

Definition supplier : Software :=
  {| UUID := "uuid-supplier"; fileName := ["HelloWorld.class"];
     installPath := Some ["/app/classes/com/example/HelloWorld.class"];
     metadata :=
       Some [MdDict {[ "javaClasses" :=
               VClasses [(hello, {| javaImports := None;
                                    javaExports := Some [hello] |})] ]}];
     sha256 := None |}.

Definition importer_metadata : MetadataItem :=
  MdDict {[ "javaClasses" :=
    VClasses [("com.example.Main", {| javaImports := Some [hello];
                                      javaExports := None |})] ]}.

Definition importer : Software :=
  {| UUID := "uuid-importer"; fileName := [];
     installPath := Some ["/other/bin/app.jar"];
     metadata := Some [importer_metadata]; sha256 := None |}.

Definition shadow : Software :=
  {| UUID := "uuid-shadow"; fileName := ["HelloWorld.class"];
     installPath := Some ["/opt/classes/com/example/HelloWorld.class"];
     metadata := metadata supplier; sha256 := None |}.

Definition hello_store : SBOM :=
  Store.add_software importer (Store.add_software supplier (Store.new 0)).

Definition shadowed_store : SBOM :=
  Store.add_software importer
    (Store.add_software shadow (Store.add_software supplier (Store.new 1))).

(** A DLL that lists itself among its imports. *)
Definition foo_metadata : MetadataItem :=
  MdDict {[ "peImport" := VStrList ["foo.dll"] ]}.

Definition foo_dll : Software :=
  {| UUID := "uuid-foo"; fileName := ["foo.dll"];
     installPath := Some ["C:/app/foo.dll"];
     metadata := Some [foo_metadata]; sha256 := None |}.

Definition foo_store : SBOM := Store.add_software foo_dll (Store.new 0).

(** An executable whose import table and bound-import table both name the
    same DLL, installed next to it. *)
Definition a_dll : Software :=
  {| UUID := "uuid-a"; fileName := ["a.dll"];
     installPath := Some ["C:/app/a.dll"];
     metadata := None; sha256 := None |}.

Definition main_metadata : MetadataItem :=
  MdDict {[ "peImport" := VStrList ["a.dll"];
            "peBoundImport" := VStrList ["a.dll"] ]}.

Definition main_exe : Software :=
  {| UUID := "uuid-main"; fileName := ["main.exe"];
     installPath := Some ["C:\app\main.exe"];
     metadata := Some [main_metadata]; sha256 := None |}.

Definition app_store : SBOM :=
  Store.add_software main_exe (Store.add_software a_dll (Store.new 0)).



(** The [javaClasses] of the importer. *)
Definition main_classes : list (string * class_info) :=
  [("com.example.Main", {| javaImports := Some [hello]; javaExports := None |})].

(** The store of [test_no_match_returns_empty]: the other entry declares no
    export. *)
Definition other : Software :=
  {| UUID := "uuid-other"; fileName := ["Other.class"];
     installPath := Some ["/somewhere/Other.class"];
     metadata := None; sha256 := None |}.

Definition no_match_store : SBOM :=
  Store.add_software importer (Store.add_software other (Store.new 3)).

(** A dict whose [javaClasses] is [None]. *)
Definition none_classes : gmap string mdvalue := {[ "javaClasses" := VNone ]}.

(** PE metadata whose only import table is present but [None]. *)
Definition empty_tables : gmap string mdvalue := {[ "peImport" := VNone ]}.

(** A plugin configuration with one configured plugin. *)
Definition capa_conf : Context.pyval :=
  Context.PDict
    [("surfactant.plugin.capa", Context.PDict [("enabled", Context.PBool true)])].

End Examples.

(** * Properties *)

Open Scope nat_scope.

(** ** Loops *)

Lemma foldl_invariant {A B} (P : A → Prop) (f : A → B → A) (l : list B) (a : A) :
  P a → (∀ a x, x ∈ l → P a → P (f a x)) → P (foldl f a l).
Proof.
  revert a. induction l as [|x l IH]; intros a Ha Hf; simpl; [done|].
  apply IH.
  - apply Hf; [left | done].
  - intros a' y Hy. apply Hf. by right.
Qed.

Lemma foldl_bind {A B C} (f : A → C → A) (g : B → list C) (l : list B) (a : A) :
  foldl f a (l ≫= g) = foldl (λ a x, foldl f a (g x)) a l.
Proof.
  revert a. induction l as [|x l IH]; intros a; simpl; [done|].
  by rewrite foldl_app, IH.
Qed.

Lemma for_each_invariant {S A} (P : S → Prop) (body : S → A → S * option pyexc)
    (l : list A) (s : S) :
  P s → (∀ s x, x ∈ l → P s → P (body s x).1) → P (for_each body s l).1.
Proof.
  revert s. induction l as [|x l IH]; intros s Hs Hb; simpl; [done|].
  pose proof (Hb s x ltac:(left) Hs) as Hx.
  destruct (body s x) as [s' [e|]]; simpl in *; [done|].
  apply IH; [done|]. intros s'' y Hy. apply Hb. by right.
Qed.

(** A loop that did not raise is the plain fold of its bodies' states. *)
Lemma for_each_completed {S A} (body : S → A → S * option pyexc)
    (pure : S → A → S) (l : list A) (s : S) :
  (∀ s x, x ∈ l → (body s x).2 = None → (body s x).1 = pure s x) →
  (for_each body s l).2 = None →
  (for_each body s l).1 = foldl pure s l.
Proof.
  revert s. induction l as [|x l IH]; intros s Hb; simpl; [done|].
  pose proof (Hb s x ltac:(left)) as Hx.
  destruct (body s x) as [s' [e|]]; simpl in *; [done|].
  intros Hnone. rewrite <- Hx by done. apply IH; [|done].
  intros s'' y Hy. apply Hb. by right.
Qed.

(** ** Plugin configuration *)

Module ContextFacts.
Import Context Examples.

Lemma truthy_dict d : d ≠ [] → truthy (PDict d) = true.
Proof. by destruct d. Qed.

(** C10.  [get_pconf] returns the default when [pluginConf], the value under
    [name] or the value under [conf_key] is falsy; any other value it returns
    is the truthy value stored under [conf_key]; and a non-empty [pluginConf]
    without the key [name], or a non-empty mapping under [name] without the
    key [conf_key], makes the call raise [KeyError]. *)
Theorem get_pconf_default_or_KeyError (self : ContextEntry)
    (name conf_key : string) (default : pyval) :
  (default_case self name conf_key →
     get_pconf self name conf_key default = Ok default)
  ∧ (∀ v, get_pconf self name conf_key default = Ok v →
       default_case self name conf_key
       ∨ ∃ module, subscript (pluginConf self) name = Ok module
                   ∧ subscript module conf_key = Ok v ∧ truthy v = true)
  ∧ (∀ conf, pluginConf self = PDict conf → conf ≠ [] →
       dict_get conf name = None →
       get_pconf self name conf_key default = Raise (KeyError name))
  ∧ (∀ conf module, pluginConf self = PDict conf →
       dict_get conf name = Some (PDict module) → module ≠ [] →
       dict_get module conf_key = None →
       get_pconf self name conf_key default = Raise (KeyError conf_key)).
Proof.
  unfold get_pconf, default_case. repeat split.
  - intros [H | [(m & Hm & Hf) | (m & f & Hm & Hfield & Hf)]].
    + by rewrite H.
    + destruct (truthy (pluginConf self)); simpl; [|done].
      rewrite Hm. simpl. by rewrite Hf.
    + destruct (truthy (pluginConf self)); simpl; [|done].
      rewrite Hm. simpl. destruct (truthy m); simpl; [|done].
      rewrite Hfield. simpl. by rewrite Hf.
  - intros v. destruct (truthy (pluginConf self)) eqn:Hc; simpl;
      [|by intros _; left; left].
    destruct (subscript (pluginConf self) name) as [m|e] eqn:Hm; simpl; [|done].
    destruct (truthy m) eqn:Htm; simpl.
    + destruct (subscript m conf_key) as [f|e] eqn:Hfield; simpl; [|done].
      destruct (truthy f) eqn:Htf; simpl; intros [= <-].
      * right. by exists m.
      * left. right. right. by exists m, f.
    + intros _. left. right. left. by exists m.
  - intros conf Hconf Hne Hget.
    rewrite Hconf, truthy_dict by done. simpl negb. cbv iota.
    unfold subscript. rewrite Hget. reflexivity.
  - intros conf module Hconf Hget Hne Hget'.
    assert (conf ≠ []) as Hc by (by destruct conf).
    rewrite Hconf, truthy_dict by done. simpl negb. cbv iota.
    unfold subscript. rewrite Hget.
    change (mbind ?f (Ok ?a)) with (f a). cbv beta.
    rewrite truthy_dict by done. simpl negb. cbv iota.
    rewrite Hget'. reflexivity.
Qed.

(** A plugin that is not configured, and an option that is not set. *)
Lemma get_pconf_default_or_KeyError_witness :
  get_pconf (entry_with capa_conf) "surfactant.plugin.yara" "enabled" PNone
    = Raise (KeyError "surfactant.plugin.yara")
  ∧ get_pconf (entry_with capa_conf) "surfactant.plugin.capa" "timeout" (PInt 5)
    = Raise (KeyError "timeout")
  ∧ get_pconf (entry_with PNone) "surfactant.plugin.capa" "timeout" (PInt 5)
    = Ok (PInt 5).
Proof.
  pose proof (get_pconf_default_or_KeyError (entry_with capa_conf)
                "surfactant.plugin.yara" "enabled" PNone) as (_ & _ & H1 & _).
  pose proof (get_pconf_default_or_KeyError (entry_with capa_conf)
                "surfactant.plugin.capa" "timeout" (PInt 5)) as (_ & _ & _ & H2).
  pose proof (get_pconf_default_or_KeyError (entry_with PNone)
                "surfactant.plugin.capa" "timeout" (PInt 5)) as (H3 & _).
  split; [|split].
  - eapply H1; [reflexivity | done | reflexivity].
  - eapply H2; [reflexivity | reflexivity | done | reflexivity].
  - apply H3. left. reflexivity.
Defined.

End ContextFacts.

(** ** Path resolution *)

Module FsTreeFacts.
Import FsTree Examples.

Lemma size_list_to_set_le (l : list string) :
  size (list_to_set l : gset string) ≤ List.length l.
Proof.
  induction l as [|x l IH].
  - change (size (∅ : gset string) ≤ 0). by rewrite size_empty.
  - change (size ({[x]} ∪ list_to_set l : gset string) ≤ S (List.length l)).
    rewrite size_union_alt, size_singleton.
    pose proof (subseteq_size (list_to_set l ∖ {[x]}) (list_to_set l : gset string)
                  ltac:(set_solver)).
    lia.
Qed.

Lemma size_sources (g : t) : size (sources g) ≤ List.length (alias g).
Proof.
  unfold sources. etrans; [apply size_list_to_set_le|]. by rewrite length_fmap.
Qed.

Lemma alias_target_source (g : t) (n dst : string) :
  alias_target g n = Some dst → n ∈ sources g.
Proof.
  unfold alias_target, sources. intros H.
  destruct (list_find _ _) as [[i [a b]]|] eqn:Hf; [|done].
  apply list_find_Some in Hf as (Hi & Ha & _). simpl in Ha. subst a.
  apply elem_of_list_to_set, list_elem_of_fmap. exists (n, b).
  split; [done|]. by eapply list_elem_of_lookup_2.
Qed.

(** A walk that has seen [visited] and still holds as much fuel as there
    are alias edges it has not used cannot run out. *)
Lemma walk_fuel_suffices (g : t) (fuel : nat) (visited : gset string)
    (current : string) :
  visited ⊆ sources g → current ∉ visited →
  List.length (alias g) ≤ size visited + fuel →
  walk g fuel visited current ≠ OutOfFuel.
Proof.
  revert visited current.
  induction fuel as [|fuel IH]; intros visited current Hsub Hcur Hlen; simpl.
  - destruct (owner g !! current); [done|].
    destruct (alias_target g current) as [dst|] eqn:Hdst; [|done].
    case_bool_decide; [done|]. exfalso.
    apply alias_target_source in Hdst.
    pose proof (subseteq_size (visited ∪ {[current]}) (sources g)
                  ltac:(set_solver)) as Hsz.
    rewrite size_union, size_singleton in Hsz by set_solver.
    pose proof (size_sources g). lia.
  - destruct (owner g !! current); [done|].
    destruct (alias_target g current) as [dst|] eqn:Hdst; [|done].
    case_bool_decide as Hseen; [done|].
    apply alias_target_source in Hdst.
    apply IH; [set_solver | done |].
    rewrite size_union, size_singleton by set_solver. lia.
Qed.

(** More fuel does not change the answer of a walk that had enough. *)
Lemma walk_fuel_mono (g : t) (fuel fuel' : nat) (visited : gset string)
    (current : string) :
  fuel ≤ fuel' → walk g fuel visited current ≠ OutOfFuel →
  walk g fuel' visited current = walk g fuel visited current.
Proof.
  revert fuel' visited current.
  induction fuel as [|fuel IH]; intros fuel' visited current Hle;
    destruct fuel' as [|fuel']; simpl; try lia; try done.
  - destruct (owner g !! current); [done|].
    destruct (alias_target g current); [|done].
    by case_bool_decide.
  - destruct (owner g !! current); [done|].
    destruct (alias_target g current); [|done].
    case_bool_decide; [done|]. apply IH. lia.
Qed.

Lemma resolve_outcome_total (g : t) (path : string) (case_insensitive : bool) :
  resolve_outcome g path case_insensitive ≠ OutOfFuel.
Proof.
  unfold resolve_outcome. destruct (start_node _ _ _); [|done].
  apply walk_fuel_suffices; [set_solver | set_solver |].
  rewrite size_empty. lia.
Qed.

(** C4.  Path resolution always completes: the walk of [resolve] never uses
    up its fuel, whatever the graph, and more fuel would give the same
    answer; a walk whose alias edge leads to a node already seen in the call
    answers "no match"; and in the store with alias edges [/a -> /b] and
    [/b -> /a] and no owner tag, [get_software_by_path("/a")] is [None]. *)
Theorem resolution_terminates_on_cycles :
  (∀ g path case_insensitive,
     resolve_outcome g path case_insensitive ≠ OutOfFuel)
  ∧ (∀ g n fuel, List.length (alias g) ≤ fuel →
       walk g fuel ∅ n = walk g (List.length (alias g)) ∅ n)
  ∧ (∀ g fuel visited current dst,
       owner g !! current = None → alias_target g current = Some dst →
       dst ∈ visited ∪ {[current]} →
       walk g fuel visited current = NoMatch)
  ∧ (alias (fs_tree cycle_store) = [("/a", "/b"); ("/b", "/a")]
     ∧ owner (fs_tree cycle_store) = ∅
     ∧ resolve_outcome (fs_tree cycle_store) "/a" false = NoMatch
     ∧ Store.get_software_by_path cycle_store "/a" false = None).
Proof.
  split; [exact resolve_outcome_total|]. split; [|split].
  - intros g n fuel Hle. apply walk_fuel_mono; [done|].
    apply walk_fuel_suffices; [set_solver | set_solver |].
    rewrite size_empty. lia.
  - intros g fuel visited current dst Ho Ha Hseen.
    destruct fuel; simpl; rewrite Ho, Ha; by rewrite bool_decide_eq_true_2.
  - repeat split; vm_compute; reflexivity.
Qed.

Lemma resolution_terminates_on_cycles_witness :
  walk (fs_tree cycle_store) 7 ∅ "/a" = walk (fs_tree cycle_store) 2 ∅ "/a"
  ∧ walk (fs_tree cycle_store) 0 {["/a"]} "/b" = NoMatch.
Proof.
  pose proof resolution_terminates_on_cycles as (_ & Hmono & Hseen & _).
  split.
  - apply (Hmono (fs_tree cycle_store) "/a" 7). vm_compute. lia.
  - apply (Hseen (fs_tree cycle_store) 0 {["/a"]} "/b" "/a").
    + vm_compute. reflexivity.
    + vm_compute. reflexivity.
    + set_solver.
Defined.

End FsTreeFacts.

(** ** Export and reconstruction *)

Module StoreFacts.
Import Examples.



End StoreFacts.

(** ** The Java export index *)

Module JavaFacts.
Import Java Examples.

Lemma insert_all_lookup (uuid : string) (m : gmap string string)
    (names : list string) (x : string) :
  insert_all uuid m names !! x
  = if decide (x ∈ names) then Some uuid else m !! x.
Proof.
  unfold insert_all. revert m.
  induction names as [|y names IH]; intros m; cbn [foldl].
  - destruct (decide (x ∈ [])) as [H|]; [by apply elem_of_nil in H | done].
  - rewrite IH.
    destruct (decide (x ∈ names)) as [Hin|Hnin],
             (decide (x ∈ y :: names)) as [Hin'|Hnin']; try done.
    + exfalso. apply Hnin'. by right.
    + apply elem_of_cons in Hin' as [->|]; [|done].
      by rewrite lookup_insert_eq.
    + rewrite lookup_insert_ne; [done|]. intros ->. apply Hnin'. left.
Qed.

Lemma scan_metadata_state (uuid : string) (m : gmap string string)
    (md : MetadataItem) :
  (scan_metadata uuid m md).1
  = match (scan_metadata uuid m md).2 with
    | None => insert_all uuid m (metadata_exports md)
    | Some _ => m
    end.
Proof.
  unfold scan_metadata, metadata_exports.
  destruct md as [d|]; [|done].
  destruct (d !! "javaClasses") as [[|[|x l]|cs]|]; simpl; try done.
  unfold insert_all. rewrite foldl_bind. reflexivity.
Qed.

Lemma scan_entry_completed (m : gmap string string) (e : Software) :
  (scan_entry m e).2 = None →
  (scan_entry m e).1 = insert_all (UUID e) m (declared_exports e).
Proof.
  unfold scan_entry, declared_exports.
  destruct (metadata e) as [mds|]; simpl; [|done].
  intros Hnone. unfold insert_all at 1. rewrite foldl_bind.
  apply for_each_completed; [|done].
  intros m' md _ Hmd. rewrite scan_metadata_state, Hmd. reflexivity.
Qed.

Lemma scan_completed (m : gmap string string) (l : list Software) :
  (for_each scan_entry m l).2 = None →
  (for_each scan_entry m l).1 = index_of m l.
Proof.
  apply for_each_completed. intros m' e _. apply scan_entry_completed.
Qed.

(** Whatever the scan stored, and wherever it stopped, it took from an
    entry it visited. *)
Lemma scan_entry_sound (m : gmap string string) (e : Software) (x u : string) :
  (scan_entry m e).1 !! x = Some u →
  m !! x = Some u ∨ (u = UUID e ∧ x ∈ declared_exports e).
Proof.
  unfold scan_entry, declared_exports.
  destruct (metadata e) as [mds|]; simpl; [|by left].
  revert x u.
  apply (for_each_invariant
           (λ s, ∀ x u, s !! x = Some u →
                        m !! x = Some u ∨ (u = UUID e ∧ x ∈ mds ≫= metadata_exports))).
  - intros x u. by left.
  - intros s md Hmd IH x u. rewrite scan_metadata_state.
    destruct (scan_metadata (UUID e) s md).2; [apply IH|].
    rewrite insert_all_lookup. case_decide as Hx; [|apply IH].
    intros [= <-]. right. split; [done|].
    apply list_elem_of_bind. by exists md.
Qed.

Lemma scan_sound (l : list Software) (x u : string) :
  (for_each scan_entry ∅ l).1 !! x = Some u →
  ∃ e, e ∈ l ∧ UUID e = u ∧ x ∈ declared_exports e.
Proof.
  revert x u.
  apply (for_each_invariant
           (λ s : gmap string string, ∀ x u, s !! x = Some u →
                        ∃ e, e ∈ l ∧ UUID e = u ∧ x ∈ declared_exports e)).
  - intros x u. by rewrite lookup_empty.
  - intros s e He IH x u Hx.
    apply scan_entry_sound in Hx as [Hx | [-> Hx]]; [by apply IH|].
    by exists e.
Qed.

Lemma index_of_app (m : gmap string string) (l k : list Software) :
  index_of m (l ++ k) = index_of (index_of m l) k.
Proof. apply foldl_app. Qed.

Lemma index_of_undeclared (m : gmap string string) (l : list Software)
    (x : string) :
  (∀ e, e ∈ l → x ∉ declared_exports e) → index_of m l !! x = m !! x.
Proof.
  revert m. induction l as [|e l IH]; intros m Hl; [done|].
  change (index_of m (e :: l))
    with (index_of (insert_all (UUID e) m (declared_exports e)) l).
  rewrite IH by (intros e' He'; apply Hl; by right).
  rewrite insert_all_lookup, decide_False; [done|]. apply Hl. left.
Qed.

Lemma index_of_last (m : gmap string string) (pre post : list Software)
    (e : Software) (x : string) :
  x ∈ declared_exports e → (∀ e', e' ∈ post → x ∉ declared_exports e') →
  index_of m (pre ++ e :: post) !! x = Some (UUID e).
Proof.
  intros He Hpost. rewrite index_of_app.
  change (index_of ?m0 (e :: post))
    with (index_of (insert_all (UUID e) m0 (declared_exports e)) post).
  rewrite index_of_undeclared by done.
  by rewrite insert_all_lookup, decide_True.
Qed.

Lemma export_index_rebuilt (cls : ExportDict) (sbom : SBOM) :
  sbom_ref cls ≠ Some (sbom_id sbom) →
  sbom_ref (create_export_dict cls sbom).1 = Some (sbom_id sbom)
  ∧ ((create_export_dict cls sbom).2 = None →
       supplied_by (create_export_dict cls sbom).1 = index_of ∅ (software sbom)).
Proof.
  intros Hother. unfold create_export_dict.
  rewrite bool_decide_eq_false_2 by done.
  pose proof (scan_completed ∅ (software sbom)) as Hdone.
  destruct (for_each scan_entry ∅ (software sbom)) as [supplied exc].
  simpl in *. by split.
Qed.



(** C9.  When the index is built for a store, an export that several
    entries declare is mapped to the entry that comes last among its
    declarers in [sbom.software]: the later entry overwrites the earlier
    ones. *)
Theorem last_declarer_wins (cls : ExportDict) (sbom : SBOM)
    (pre post : list Software) (e : Software) (x : string) :
  sbom_ref cls ≠ Some (sbom_id sbom) →
  (create_export_dict cls sbom).2 = None →
  software sbom = pre ++ e :: post →
  x ∈ declared_exports e →
  (∀ e', e' ∈ post → x ∉ declared_exports e') →
  get_supplier (create_export_dict cls sbom).1 x = Some (UUID e).
Proof.
  intros Hother Hdone Hsw He Hpost.
  destruct (export_index_rebuilt cls sbom Hother) as [_ Hindex].
  unfold get_supplier. rewrite Hindex by done. rewrite Hsw.
  by apply index_of_last.
Qed.

Lemma last_declarer_wins_witness :
  get_supplier (create_export_dict initial shadowed_store).1 hello
  = Some "uuid-shadow".
Proof.
  apply (last_declarer_wins initial shadowed_store [supplier] [importer] shadow hello).
  - vm_compute. discriminate.
  - vm_compute. reflexivity.
  - vm_compute. reflexivity.
  - vm_compute. left.
  - intros e' He'. apply list_elem_of_singleton in He' as ->.
    vm_compute. apply not_elem_of_nil.
Defined.

End JavaFacts.

(** ** The resolvers *)

Module JavaResolverFacts.
Import Java.

Lemma resolve_import_invariant cls dep st x :
  invariant dep st → invariant dep (resolve_import cls dep st x).
Proof.
  destruct st as [rels log]. intros (Hnd & Hrel & Hlog).
  assert (∀ ev, ev ∈ log ++ [EvLegacyExport x] → ∃ y, ev = EvLegacyExport y)
    as Hlog'.
  { intros ev [Hev|Hev%list_elem_of_singleton]%elem_of_app; [by apply Hlog|].
    by exists x. }
  unfold resolve_import, invariant. simpl.
  destruct (get_supplier cls x) as [u|]; [|done].
  destruct (bool_decide (u ≠ "")); simpl; [|done].
  case_bool_decide as Hself; simpl; [|done].
  case_bool_decide as Hin; simpl; [done|].
  split; [|split; [|done]].
  - apply NoDup_app. split; [done|]. split; [|apply NoDup_singleton].
    intros r Hr Hr'%list_elem_of_singleton. by subst r.
  - intros r [Hr|Hr%list_elem_of_singleton]%elem_of_app; [by apply Hrel|].
    by exists u.
Qed.

Lemma resolve_classes_invariant cls dep java_classes :
  invariant dep (resolve_classes cls dep java_classes).
Proof.
  unfold resolve_classes. apply foldl_invariant.
  - repeat split; [apply NoDup_nil_2 | |]; intros ? Hx; by apply elem_of_nil in Hx.
  - intros st kv _ Hst. apply foldl_invariant; [done|].
    intros st' x _. apply resolve_import_invariant.
Qed.

(** What a call returns and which calls it makes, case by case. *)
Lemma establish_relationships_cases cls sbom software md :
  let out := establish_relationships cls sbom software md in
  (out.1.2 = Ok None ∧ out.2 = [])
  ∨ (∃ e, out.1.2 = Raise e ∧ out.2 = [])
  ∨ (∃ cls' java_classes,
       out.1.2 = Ok (Some (resolve_classes cls' (UUID software) java_classes).1)
       ∧ out.2 = (resolve_classes cls' (UUID software) java_classes).2).
Proof.
  unfold establish_relationships.
  destruct (has_required_fields md); simpl; [|by left].
  destruct md as [d|]; [|right; left; by eexists].
  destruct (d !! "javaClasses") as [v|]; [|right; left; by eexists].
  destruct (create_export_dict cls sbom) as [cls' [e|]];
    [right; left; by eexists|].
  destruct v as [|l|cs]; try (right; left; by eexists).
  right. right. exists cls', cs.
  by destruct (resolve_classes cls' (UUID software) cs).
Qed.

Lemma establish_relationships_returns cls sbom software md rels :
  (establish_relationships cls sbom software md).1.2 = Ok (Some rels) →
  NoDup rels ∧ ∀ r, r ∈ rels → xUUID r = UUID software ∧ yUUID r ≠ UUID software.
Proof.
  destruct (establish_relationships_cases cls sbom software md)
    as [[H _] | [(e & H & _) | (cls' & cs & H & _)]];
    rewrite H; try done.
  intros [= <-].
  destruct (resolve_classes_invariant cls' (UUID software) cs) as (Hnd & Hrel & _).
  split; [done|]. intros r (u & -> & Hu)%Hrel. done.
Qed.

Lemma establish_relationships_calls cls sbom software md ev :
  ev ∈ (establish_relationships cls sbom software md).2 →
  ∃ x, ev = EvLegacyExport x.
Proof.
  destruct (establish_relationships_cases cls sbom software md)
    as [[_ H] | [(e & _ & H) | (cls' & cs & _ & H)]];
    rewrite H; try (by intros ?%elem_of_nil).
  by apply resolve_classes_invariant.
Qed.

End JavaResolverFacts.

Module PEFacts.
Import PE.

Section resolver.

Context (get_software_by_path : SBOM → string → bool → option Software)
        (find_installed_software : SBOM → list string → string → list Software)
        (normalize_path : string → string → string)
        (windows_parent : string → string).

#[local] Abbreviation probedirs_of := (PE.probedirs_of windows_parent).
#[local] Abbreviation probe := (PE.probe get_software_by_path normalize_path).
#[local] Abbreviation phase1 :=
  (PE.phase1 get_software_by_path normalize_path windows_parent).
#[local] Abbreviation phase2 := (PE.phase2 find_installed_software windows_parent).
#[local] Abbreviation resolve_import :=
  (PE.resolve_import get_software_by_path find_installed_software
     normalize_path windows_parent).
#[local] Abbreviation get_windows_pe_dependencies :=
  (PE.get_windows_pe_dependencies get_software_by_path find_installed_software
     normalize_path windows_parent).
#[local] Abbreviation establish_relationships :=
  (PE.establish_relationships get_software_by_path find_installed_software
     normalize_path windows_parent).
#[local] Abbreviation query := (PE.query normalize_path).
#[local] Abbreviation structural_match :=
  (PE.structural_match get_software_by_path normalize_path windows_parent).
#[local] Abbreviation import_log :=
  (PE.import_log get_software_by_path find_installed_software normalize_path
     windows_parent).

Lemma probe_log sbom dep fname st dirs :
  (foldl (probe sbom dep fname) st dirs).2 = st.2 ++ (query fname <$> dirs).
Proof.
  revert st. induction dirs as [|d dirs IH]; intros [m log]; simpl.
  - by rewrite app_nil_r.
  - rewrite IH. unfold PE.probe.
    destruct (get_software_by_path _ _ _) as [sw'|]; [case_bool_decide|];
      simpl; by rewrite <- app_assoc.
Qed.

Lemma probe_matched sbom dep fname st dirs u :
  u ∈ (foldl (probe sbom dep fname) st dirs).1
  ↔ u ∈ st.1
    ∨ ∃ directory m, directory ∈ dirs
        ∧ get_software_by_path sbom (normalize_path directory fname) true = Some m
        ∧ UUID m = u ∧ u ≠ dep.
Proof.
  revert st. induction dirs as [|d dirs IH]; intros [ms log]; simpl.
  - split; [by left|]. intros [H|(d & m & Hd & _)]; [done|].
    by apply elem_of_nil in Hd.
  - rewrite IH. unfold PE.probe.
    destruct (get_software_by_path sbom (normalize_path d fname) true)
      as [sw'|] eqn:Hq; [case_bool_decide as Hne|]; simpl.
    + rewrite elem_of_union, elem_of_singleton. split.
      * intros [[H| ->]|(d' & m & Hd' & Hm)]; [by left | |].
        -- right. exists d, sw'. split; [left|done].
        -- right. exists d', m. split; [by right|done].
      * intros [H|(d' & m & [->|Hd']%elem_of_cons & Hm & Hu & Hdep)].
        -- by left; left.
        -- left. right. congruence.
        -- right. by exists d', m.
    + split.
      * intros [H|(d' & m & Hd' & Hm)]; [by left|].
        right. exists d', m. split; [by right|done].
      * intros [H|(d' & m & [->|Hd']%elem_of_cons & Hm & Hu & Hdep)];
          [by left | | right; by exists d', m].
        exfalso. rewrite Hq in Hm. congruence.
    + split.
      * intros [H|(d' & m & Hd' & Hm)]; [by left|].
        right. exists d', m. split; [by right|done].
      * intros [H|(d' & m & [->|Hd']%elem_of_cons & Hm & Hu & Hdep)];
          [by left | congruence | right; by exists d', m].
Qed.

Lemma phase1_log sbom sw fname :
  (phase1 sbom sw fname).2 = query fname <$> probedirs_of sw.
Proof. unfold PE.phase1. by rewrite probe_log. Qed.

Lemma phase1_matched sbom sw fname u :
  u ∈ (phase1 sbom sw fname).1 ↔ structural_match sbom sw fname u.
Proof.
  unfold PE.phase1, structural_match. rewrite probe_matched. simpl.
  split; [|by right]. by intros [?%not_elem_of_empty|].
Qed.

Lemma emit_elem dep rels us r :
  r ∈ foldl (emit dep) rels us ↔ r ∈ rels ∨ ∃ u, u ∈ us ∧ r = uses dep u.
Proof.
  revert rels. induction us as [|u us IH]; intros rels; simpl.
  - split; [by left|]. intros [H|(u & Hu & _)]; [done|].
    by apply elem_of_nil in Hu.
  - rewrite IH. unfold emit. fold (uses dep u).
    case_bool_decide as Hin.
    + split.
      * intros [H|(u' & Hu' & ->)]; [by left|]. right. exists u'.
        split; [by right|done].
      * intros [H|(u' & [->|Hu']%elem_of_cons & ->)];
          [by left | by left | right; by exists u'].
    + rewrite elem_of_app, list_elem_of_singleton. split.
      * intros [[H| ->]|(u' & Hu' & ->)]; [by left | |].
        -- right. exists u. split; [left|done].
        -- right. exists u'. split; [by right|done].
      * intros [H|(u' & [->|Hu']%elem_of_cons & ->)];
          [by left; left | by left; right | right; by exists u'].
Qed.

Lemma emit_NoDup dep rels us :
  NoDup rels → NoDup (foldl (emit dep) rels us).
Proof.
  intros Hnd. apply foldl_invariant; [done|].
  intros rels' u _ Hnd'. unfold emit. case_bool_decide as Hin; [done|].
  apply NoDup_app. split; [done|]. split; [|apply NoDup_singleton].
  intros r Hr Hr'%list_elem_of_singleton. by subst r.
Qed.

Lemma resolve_import_log sbom sw st fname :
  (resolve_import sbom sw st fname).2 = st.2 ++ import_log sbom sw fname.
Proof.
  unfold PE.resolve_import, import_log. destruct st as [rels log].
  case_bool_decide; [by rewrite app_nil_r|].
  destruct (phase1 sbom sw fname) as [m1 log1]; cbn [fst snd].
  destruct (phase2 sbom sw fname m1) as [m2 log2]; reflexivity.
Qed.

Lemma resolve_imports_log sbom sw st imports :
  (foldl (resolve_import sbom sw) st imports).2
  = st.2 ++ (imports ≫= import_log sbom sw).
Proof.
  revert st. induction imports as [|fname imports IH]; intros st; simpl.
  - by rewrite app_nil_r.
  - rewrite IH, resolve_import_log. by rewrite <- app_assoc.
Qed.

Lemma resolve_import_rels sbom sw st fname :
  fname ≠ "" →
  (resolve_import sbom sw st fname).1
  = foldl (emit (UUID sw)) st.1
      (elements (phase2 sbom sw fname (phase1 sbom sw fname).1).1).
Proof.
  intros Hne. unfold PE.resolve_import. destruct st as [rels log].
  rewrite bool_decide_eq_false_2 by done.
  destruct (phase1 sbom sw fname) as [m1 log1]; cbn [fst snd].
  destruct (phase2 sbom sw fname m1) as [m2 log2]; reflexivity.
Qed.

Lemma resolve_import_NoDup sbom sw st fname :
  NoDup st.1 → NoDup (resolve_import sbom sw st fname).1.
Proof.
  intros Hnd. destruct (decide (fname = "")) as [->|Hne].
  - unfold PE.resolve_import. by rewrite bool_decide_eq_true_2.
  - rewrite resolve_import_rels by done. by apply emit_NoDup.
Qed.

Lemma get_windows_pe_dependencies_NoDup sbom sw peImports :
  NoDup (get_windows_pe_dependencies sbom sw peImports).1.
Proof.
  unfold PE.get_windows_pe_dependencies.
  destruct (installPath sw); [|apply NoDup_nil_2].
  apply (foldl_invariant (λ st, NoDup st.1)); [apply NoDup_nil_2|].
  intros st fname _. apply resolve_import_NoDup.
Qed.

Lemma get_windows_pe_dependencies_snoc sbom sw peImports fname :
  installPath sw ≠ None →
  get_windows_pe_dependencies sbom sw (peImports ++ [fname])
  = resolve_import sbom sw (get_windows_pe_dependencies sbom sw peImports) fname.
Proof.
  unfold PE.get_windows_pe_dependencies.
  destruct (installPath sw); [|done]. intros _. by rewrite foldl_app.
Qed.

(** Phase 2 adds every entry the legacy lookup returns, the subject
    included. *)
Lemma legacy_match_is_emitted sbom sw st fname e :
  fname ≠ "" → (phase1 sbom sw fname).1 = ∅ →
  e ∈ find_installed_software sbom (probedirs_of sw) fname →
  uses (UUID sw) (UUID e) ∈ (resolve_import sbom sw st fname).1.
Proof.
  intros Hne Hempty He. rewrite resolve_import_rels by done.
  apply emit_elem. right. exists (UUID e). split; [|done].
  apply elem_of_elements. unfold PE.phase2.
  rewrite Hempty, bool_decide_eq_true_2 by done. cbn [fst].
  generalize (∅ : gset string). revert He.
  induction (find_installed_software sbom (probedirs_of sw) fname)
    as [|e' l IH]; intros He m; [by apply elem_of_nil in He|].
  apply elem_of_cons in He as [<-|He]; simpl.
  - apply (foldl_invariant (λ m, UUID e ∈ m)); [set_solver|].
    intros; set_solver.
  - by apply IH.
Qed.

(** C5.  For a non-empty import [fname] of a PE call, let [matched] be the
    UUIDs phase 1 collects: those of the entities, other than the subject,
    that the path resolver finds in a probe directory.  The calls the import
    adds to the log contain a legacy lookup only if [matched] is empty; and
    when [matched] is not empty, the calls are the phase-1 queries alone and
    the relationships after the import are those before it plus one for
    each UUID of [matched]. *)
Theorem legacy_only_after_empty_phase1 (sbom : SBOM) (sw : Software)
    (peImports : list string) (fname : string) :
  installPath sw ≠ None → fname ≠ "" →
  let before := get_windows_pe_dependencies sbom sw peImports in
  let after := get_windows_pe_dependencies sbom sw (peImports ++ [fname]) in
  let matched := (phase1 sbom sw fname).1 in
  (∀ u, u ∈ matched ↔ structural_match sbom sw fname u)
  ∧ after.2 = before.2 ++ import_log sbom sw fname
  ∧ (∀ ev, ev ∈ import_log sbom sw fname → is_legacy ev → matched = ∅)
  ∧ (matched ≠ ∅ →
       import_log sbom sw fname = query fname <$> probedirs_of sw
       ∧ ∀ r, r ∈ after.1
              ↔ r ∈ before.1 ∨ ∃ u, u ∈ matched ∧ r = uses (UUID sw) u).
Proof.
  intros Hpath Hne before after matched. subst before after.
  rewrite get_windows_pe_dependencies_snoc by done.
  split; [apply phase1_matched|]. split; [apply resolve_import_log|].
  assert (matched ≠ ∅ →
          import_log sbom sw fname = query fname <$> probedirs_of sw) as Hlog.
  { intros Hm. unfold import_log, PE.phase2. fold matched.
    rewrite bool_decide_eq_false_2 by done.
    rewrite (bool_decide_eq_false_2 (matched = ∅)) by done.
    cbn [snd]. by rewrite app_nil_r, phase1_log. }
  split.
  - intros ev Hev Hleg. destruct (decide (matched = ∅)) as [|Hm]; [done|].
    exfalso. rewrite Hlog in Hev by done.
    apply list_elem_of_fmap in Hev as (d & -> & _).
    destruct Hleg as [(? & ? & ?) | (? & ?)]; discriminate.
  - intros Hm. split; [by apply Hlog|]. intros r.
    rewrite resolve_import_rels by done. rewrite emit_elem.
    unfold PE.phase2. fold matched.
    rewrite (bool_decide_eq_false_2 (matched = ∅)) by done. cbn [fst].
    by setoid_rewrite elem_of_elements.
Qed.

(** The log of a PE call, import by import. *)
Lemma get_windows_pe_dependencies_log sbom sw peImports :
  installPath sw ≠ None →
  (get_windows_pe_dependencies sbom sw peImports).2
  = peImports ≫= import_log sbom sw.
Proof.
  unfold PE.get_windows_pe_dependencies.
  destruct (installPath sw); [|done]. intros _.
  by rewrite resolve_imports_log.
Qed.

Lemma import_log_shape sbom sw fname ips :
  installPath sw = Some ips → fname ≠ "" →
  ∃ legacy,
    import_log sbom sw fname
    = ((λ ipath, EvPathQuery (normalize_path (windows_parent ipath) fname) true)
         <$> ips) ++ legacy
    ∧ (legacy = [] ∨ legacy = [EvLegacyInstalled (probedirs_of sw) fname]).
Proof.
  intros Hips Hne. unfold import_log.
  rewrite bool_decide_eq_false_2 by done. rewrite phase1_log.
  exists (phase2 sbom sw fname (phase1 sbom sw fname).1).2. split.
  - f_equal. unfold PE.probedirs_of. rewrite Hips. simpl.
    by rewrite <- list_fmap_compose.
  - unfold PE.phase2. case_bool_decide; [by right | by left].
Qed.

End resolver.

End PEFacts.

(** ** Both resolvers *)

Module ResolverProperties.
Import Examples.

(** *** Self-reference *)

(** Phase 1 of the PE resolver and the Java resolver leave the subject
    out. *)
Lemma pe_phase1_excludes_subject gsbp np wp sbom sw fname :
  UUID sw ∉ (PE.phase1 gsbp np wp sbom sw fname).1.
Proof.
  intros H. apply PEFacts.phase1_matched in H as (d & m & _ & _ & _ & Hne).
  done.
Qed.

Lemma java_excludes_subject cls sbom software md rels r :
  (Java.establish_relationships cls sbom software md).1.2 = Ok (Some rels) →
  r ∈ rels → xUUID r ≠ yUUID r.
Proof.
  intros Hret Hr.
  destruct (JavaResolverFacts.establish_relationships_returns _ _ _ _ _ Hret)
    as [_ H].
  destruct (H r Hr) as [-> Hne]. congruence.
Qed.

(** C1.  The PE resolver on [foo.dll], installed at [C:/app/foo.dll] and
    importing [foo.dll]: the path resolver finds the subject itself, phase 1
    leaves it out, the legacy lookup returns the subject again, and the call
    returns the relationship from the subject to itself. *)
Theorem pe_legacy_fallback_emits_self_edge :
  Store.get_software_by_path foo_store "C:/app/foo.dll" true = Some foo_dll
  ∧ WindowsUtils.find_installed_software foo_store ["C:/app"] "foo.dll" = [foo_dll]
  ∧ Model.pe_dependencies foo_store foo_dll ["foo.dll"]
    = ([uses "uuid-foo" "uuid-foo"],
       [EvPathQuery "C:/app/foo.dll" true;
        EvLegacyInstalled ["C:/app"] "foo.dll"])
  ∧ (Model.pe_establish_relationships foo_store foo_dll foo_metadata).1
    = Ok (Some [uses "uuid-foo" "uuid-foo"]).
Proof. repeat split; vm_compute; reflexivity. Qed.

(** *** Phase 1 and the path resolver *)

(** The Java resolver on the importer of [test_legacy_export_match], which
    has an install path and one import: the relationship comes from the
    export index, and the path resolver is not queried. *)
Lemma java_makes_no_path_query :
  let out := Java.establish_relationships Java.initial Examples.hello_store
               Examples.importer Examples.importer_metadata in
  installPath Examples.importer = Some ["/other/bin/app.jar"]
  ∧ out.1.2 = Ok (Some [uses "uuid-importer" "uuid-supplier"])
  ∧ out.2 = [EvLegacyExport Examples.hello]
  ∧ ¬ ∃ ev, ev ∈ out.2 ∧ is_path_query ev.
Proof.
  repeat split; try (vm_compute; reflexivity).
  intros (ev & Hev & p & ci & ->).
  apply JavaResolverFacts.establish_relationships_calls in Hev as [x Hx].
  discriminate.
Qed.

(** C2, amended.  In a PE call on a subject with install paths, the log is
    the concatenation of the logs of the imports; an empty import adds
    nothing; a non-empty import first queries the path resolver, ignoring
    case, at the normalized join of the parent directory of each install
    path with the import, and only then consults the legacy lookup, at most
    once.  The Java resolver never queries the path resolver: its calls are
    lookups in the export index. *)
Theorem phase1_queries_precede_legacy
    (get_software_by_path : SBOM → string → bool → option Software)
    (find_installed_software : SBOM → list string → string → list Software)
    (normalize_path : string → string → string)
    (windows_parent : string → string)
    (sbom : SBOM) (sw : Software) (peImports ips : list string) :
  installPath sw = Some ips →
  let import_log :=
    PE.import_log get_software_by_path find_installed_software
      normalize_path windows_parent sbom sw in
  (PE.get_windows_pe_dependencies get_software_by_path find_installed_software
     normalize_path windows_parent sbom sw peImports).2
  = peImports ≫= import_log
  ∧ import_log "" = []
  ∧ (∀ fname, fname ≠ "" →
       ∃ legacy,
         import_log fname
         = ((λ ipath, EvPathQuery (normalize_path (windows_parent ipath) fname) true)
              <$> ips) ++ legacy
         ∧ (legacy = []
            ∨ legacy = [EvLegacyInstalled (windows_parent <$> ips) fname]))
  ∧ (∀ cls sbom' software md ev,
       ev ∈ (Java.establish_relationships cls sbom' software md).2 →
       ∃ import_name, ev = EvLegacyExport import_name).
Proof.
  intros Hips import_log. subst import_log. repeat split.
  - apply PEFacts.get_windows_pe_dependencies_log. by rewrite Hips.
  - intros fname Hne.
    destruct (PEFacts.import_log_shape get_software_by_path
                find_installed_software normalize_path windows_parent
                sbom sw fname ips Hips Hne) as (legacy & Hlog & Hleg).
    exists legacy. split; [done|].
    unfold PE.probedirs_of in Hleg. by rewrite Hips in Hleg.
  - apply JavaResolverFacts.establish_relationships_calls.
Qed.

Lemma phase1_queries_precede_legacy_witness :
  (Model.pe_dependencies app_store main_exe ["a.dll"; ""; "b.dll"]).2
  = [EvPathQuery "C:/app/a.dll" true; EvPathQuery "C:/app/b.dll" true;
     EvLegacyInstalled ["C:/app"] "b.dll"].
Proof.
  etrans.
  - apply (phase1_queries_precede_legacy Store.get_software_by_path
             WindowsUtils.find_installed_software Paths.normalize_path
             Paths.windows_parent app_store main_exe
             ["a.dll"; ""; "b.dll"] ["C:\app\main.exe"]).
    reflexivity.
  - vm_compute. reflexivity.
Defined.

Lemma legacy_only_after_empty_phase1_witness :
  (Model.pe_dependencies app_store main_exe ([] ++ ["a.dll"])).2
  = (Model.pe_dependencies app_store main_exe []).2
    ++ PE.import_log Store.get_software_by_path
         WindowsUtils.find_installed_software Paths.normalize_path
         Paths.windows_parent app_store main_exe "a.dll".
Proof.
  assert (installPath main_exe ≠ None) as Hpath by (vm_compute; discriminate).
  assert ("a.dll" ≠ "") as Hne by discriminate.
  pose proof (PEFacts.legacy_only_after_empty_phase1 Store.get_software_by_path
                WindowsUtils.find_installed_software Paths.normalize_path
                Paths.windows_parent app_store main_exe [] "a.dll" Hpath Hne)
    as H.
  cbv zeta in H. destruct H as (_ & H & _). exact H.
Defined.

(** *** Not applicable *)

Lemma java_not_applicable cls sbom software md :
  Java.has_required_fields md = false →
  Java.establish_relationships cls sbom software md = (cls, Ok None, []).
Proof. intros H. unfold Java.establish_relationships. by rewrite H. Qed.

Lemma pe_not_applicable gsbp fis np wp sbom software d :
  d !! "peImport" = None → d !! "peBoundImport" = None →
  d !! "peDelayImport" = None →
  PE.establish_relationships gsbp fis np wp sbom software (MdDict d)
  = (Ok None, []).
Proof.
  intros H1 H2 H3. unfold PE.establish_relationships, PE.has_required_fields.
  simpl. rewrite H1, H2, H3. reflexivity.
Qed.

Lemma pe_no_install_path gsbp fis np wp sbom sw peImports :
  installPath sw = None →
  PE.get_windows_pe_dependencies gsbp fis np wp sbom sw peImports = ([], []).
Proof. intros H. unfold PE.get_windows_pe_dependencies. by rewrite H. Qed.

(** C6.  A metadata item that is not a dict has none of the PE import keys,
    yet the PE resolver does not return nothing for it: the membership test
    of [has_required_fields] raises [TypeError], whatever the store and the
    subject. *)
Theorem pe_raises_on_metadata_object
    (get_software_by_path : SBOM → string → bool → option Software)
    (find_installed_software : SBOM → list string → string → list Software)
    (normalize_path : string → string → string)
    (windows_parent : string → string)
    (sbom : SBOM) (software : Software) :
  PE.has_required_fields MdObject = Raise TypeError
  ∧ PE.establish_relationships get_software_by_path find_installed_software
      normalize_path windows_parent sbom software MdObject
    = (Raise TypeError, [])
  ∧ Java.establish_relationships Java.initial sbom software MdObject
    = (Java.initial, Ok None, []).
Proof. repeat split. Qed.

(** *** Duplicates *)




End ResolverProperties.

(** * Further properties *)

(** ** Plugin configuration *)

Module ContextMore.
Import Context Examples.

Lemma dict_get_nonempty {V} (d : list (string * V)) k v :
  dict_get d k = Some v → d ≠ [].
Proof. by destruct d. Qed.

(** X1.  When the value stored under [name] is truthy but is not a mapping
    (a string, a number, a list, [True]), [get_pconf] raises [TypeError]: it
    subscripts the value with [conf_key] without looking at its type. *)
Theorem get_pconf_entry_not_a_mapping (self : ContextEntry)
    (name conf_key : string) (default : pyval)
    (conf : list (string * pyval)) (module : pyval) :
  pluginConf self = PDict conf →
  dict_get conf name = Some module →
  truthy module = true →
  (∀ m, module ≠ PDict m) →
  get_pconf self name conf_key default = Raise TypeError.
Proof.
  intros Hconf Hget Htruthy Hshape. unfold get_pconf.
  pose proof (dict_get_nonempty _ _ _ Hget) as Hne.
  rewrite Hconf. destruct conf as [|kv conf]; [done|].
  simpl truthy. simpl negb. cbv iota.
  unfold subscript at 2. rewrite Hget.
  change (mbind ?f (Ok ?a)) with (f a). cbv beta.
  rewrite Htruthy. simpl negb. cbv iota.
  destruct module; try reflexivity. by destruct (Hshape d).
Qed.

Lemma get_pconf_entry_not_a_mapping_witness :
  get_pconf (entry_with (PDict [("surfactant.plugin.capa", PStr "on")]))
    "surfactant.plugin.capa" "enabled" PNone
  = Raise TypeError.
Proof.
  apply (get_pconf_entry_not_a_mapping _ _ _ _
           [("surfactant.plugin.capa", PStr "on")] (PStr "on")).
  - reflexivity.
  - reflexivity.
  - reflexivity.
  - intros m. discriminate.
Defined.

(** X2.  A falsy value stored in the configuration is never returned: if
    [get_pconf] returns a falsy value, that value is the default.  An option
    set to [False], [0] or an empty string or list reads as if it were not
    set. *)
Theorem get_pconf_falsy_is_default (self : ContextEntry)
    (name conf_key : string) (default v : pyval) :
  get_pconf self name conf_key default = Ok v →
  truthy v = false →
  v = default.
Proof.
  unfold get_pconf.
  destruct (truthy (pluginConf self)); simpl; [|by intros [= <-]].
  destruct (subscript (pluginConf self) name) as [m|e]; simpl; [|done].
  destruct (truthy m); simpl; [|by intros [= <-]].
  destruct (subscript m conf_key) as [f|e]; simpl; [|done].
  destruct (truthy f) eqn:Hf; simpl; intros [= <-]; [congruence | done].
Qed.

Lemma get_pconf_falsy_is_default_witness :
  let self := entry_with (PDict [("surfactant.plugin.capa",
                                  PDict [("retries", PInt 0)])]) in
  get_pconf self "surfactant.plugin.capa" "retries" PNone = Ok PNone
  ∧ truthy PNone = false
  ∧ PNone = PNone.
Proof.
  intros self. split; [reflexivity|]. split; [reflexivity|].
  apply (get_pconf_falsy_is_default self "surfactant.plugin.capa" "retries"
           PNone PNone); reflexivity.
Defined.

(** X3.  The only exceptions [get_pconf] raises are [KeyError] for [name],
    [KeyError] for [conf_key] and [TypeError]; with no plugin configuration,
    or an empty one, it raises nothing. *)
Theorem get_pconf_exceptions (self : ContextEntry) (name conf_key : string)
    (default : pyval) (e : pyexc) :
  get_pconf self name conf_key default = Raise e →
  truthy (pluginConf self) = true
  ∧ (e = KeyError name ∨ e = KeyError conf_key ∨ e = TypeError).
Proof.
  unfold get_pconf.
  destruct (truthy (pluginConf self)); simpl; [|done].
  intros H. split; [done|]. revert H.
  assert (∀ v k m, subscript v k = Raise m → m = KeyError k ∨ m = TypeError)
    as Hsub.
  { intros v k m. destruct v; simpl; try (intros [= <-]; by right).
    destruct (dict_get d k); [done|]. intros [= <-]. by left. }
  destruct (subscript (pluginConf self) name) as [m|e'] eqn:Hm; simpl.
  - destruct (truthy m); simpl; [|done].
    destruct (subscript m conf_key) as [f|e''] eqn:Hf; simpl.
    + by destruct (truthy f).
    + intros [= <-]. apply Hsub in Hf as [->| ->]; auto.
  - intros [= <-]. apply Hsub in Hm as [->| ->]; auto.
Qed.

Lemma get_pconf_exceptions_witness :
  truthy (pluginConf (entry_with capa_conf)) = true
  ∧ (KeyError "timeout" = KeyError "surfactant.plugin.capa"
     ∨ KeyError "timeout" = KeyError "timeout"
     ∨ KeyError "timeout" = TypeError).
Proof.
  apply (get_pconf_exceptions (entry_with capa_conf) "surfactant.plugin.capa"
           "timeout" PNone (KeyError "timeout")).
  reflexivity.
Defined.

End ContextMore.

(** ** The Java resolver *)

Module JavaMore.
Import Java Examples.

Lemma resolve_import_elem cls dep st x r :
  r ∈ (resolve_import cls dep st x).1
  ↔ r ∈ st.1
    ∨ ∃ u, get_supplier cls x = Some u ∧ u ≠ "" ∧ u ≠ dep ∧ r = uses dep u.
Proof.
  destruct st as [rels log]. unfold resolve_import. simpl.
  destruct (get_supplier cls x) as [u|]; simpl.
  - fold (uses dep u).
    case_bool_decide as Hne; simpl; [case_bool_decide as Hdep; simpl|].
    + case_bool_decide as Hin; simpl.
      * split; [by left|]. intros [H|(u' & [= <-] & _ & _ & ->)]; done.
      * rewrite elem_of_app, list_elem_of_singleton. split.
        -- intros [H| ->]; [by left|]. right. by exists u.
        -- intros [H|(u' & [= <-] & _ & _ & ->)]; [by left | by right].
    + split; [by left|]. intros [H|(u' & [= <-] & _ & Hd & _)]; done.
    + split; [by left|]. intros [H|(u' & [= <-] & Hn & _)]; done.
  - split; [by left|]. intros [H|(u' & [=] & _)]; done.
Qed.


Lemma resolve_lookups_elem cls dep st xs r :
  r ∈ (foldl (resolve_import cls dep) st xs).1
  ↔ r ∈ st.1
    ∨ ∃ x u, x ∈ xs ∧ get_supplier cls x = Some u ∧ u ≠ "" ∧ u ≠ dep
             ∧ r = uses dep u.
Proof.
  revert st. induction xs as [|x xs IH]; intros st; simpl.
  - split; [by left|]. intros [H|(x & u & Hx & _)]; [done|].
    by apply elem_of_nil in Hx.
  - rewrite IH, resolve_import_elem. split.
    + intros [[H|(u & Hu)]|(y & u & Hy & Hu)].
      * by left.
      * right. exists x, u. split; [left|done].
      * right. exists y, u. split; [by right|done].
    + intros [H|(y & u & [->|Hy]%elem_of_cons & Hu)].
      * by left; left.
      * left. right. by exists u.
      * right. by exists y, u.
Qed.


Lemma resolve_classes_flat cls dep java_classes :
  resolve_classes cls dep java_classes
  = foldl (resolve_import cls dep) ([], []) (declared_imports java_classes).
Proof. unfold resolve_classes, declared_imports. by rewrite foldl_bind. Qed.

(** A call on a dict whose [javaClasses] is a mapping, once the index is
    there. *)
Lemma establish_relationships_on_classes cls sbom software d java_classes :
  d !! "javaClasses" = Some (VClasses java_classes) →
  (create_export_dict cls sbom).2 = None →
  establish_relationships cls sbom software (MdDict d)
  = ((create_export_dict cls sbom).1,
     Ok (Some (resolve_classes (create_export_dict cls sbom).1 (UUID software)
                 java_classes).1),
     (resolve_classes (create_export_dict cls sbom).1 (UUID software)
        java_classes).2).
Proof.
  intros Hd Hexc. unfold establish_relationships, has_required_fields.
  rewrite Hd. rewrite bool_decide_eq_true_2 by (by eexists). simpl.
  destruct (create_export_dict cls sbom) as [cls' exc]. simpl in *. subst exc.
  by destruct (resolve_classes cls' (UUID software) java_classes).
Qed.



Lemma fresh_index_sound cls sbom x u :
  sbom_ref cls ≠ Some (sbom_id sbom) →
  get_supplier (create_export_dict cls sbom).1 x = Some u →
  ∃ e, e ∈ software sbom ∧ UUID e = u ∧ x ∈ declared_exports e.
Proof.
  intros Hfresh. unfold create_export_dict, get_supplier.
  rewrite bool_decide_eq_false_2 by done.
  pose proof (JavaFacts.scan_sound (software sbom) x u) as Hsound.
  by destruct (for_each scan_entry ∅ (software sbom)) as [supplied exc].
Qed.

(** X5.  When the index is built for the store and no entry of the store
    declares any of the subject's imports as an export, the Java resolver
    returns the empty list. *)
Theorem java_no_declarer_no_relationship (cls : ExportDict) (sbom : SBOM)
    (subject : Software) (d : gmap string mdvalue)
    (java_classes : list (string * class_info)) :
  sbom_ref cls ≠ Some (sbom_id sbom) →
  (create_export_dict cls sbom).2 = None →
  d !! "javaClasses" = Some (VClasses java_classes) →
  (∀ x e, x ∈ declared_imports java_classes → e ∈ software sbom →
          x ∉ declared_exports e) →
  (establish_relationships cls sbom subject (MdDict d)).1.2 = Ok (Some []).
Proof.
  intros Hfresh Hexc Hd Hnone.
  rewrite (establish_relationships_on_classes _ _ _ _ java_classes) by done.
  simpl. do 2 f_equal. apply elem_of_nil_inv. intros r.
  rewrite resolve_classes_flat, resolve_lookups_elem. simpl.
  intros [Hr%elem_of_nil|(x & u & Hx & Hu & _)]; [done|].
  apply fresh_index_sound in Hu as (e & He & _ & Hdecl); [|done].
  by apply (Hnone x e).
Qed.

Lemma importer_metadata_classes :
  importer_metadata = MdDict {[ "javaClasses" := VClasses main_classes ]}.
Proof. reflexivity. Qed.

Lemma java_no_declarer_no_relationship_witness :
  (establish_relationships initial no_match_store importer importer_metadata).1.2
  = Ok (Some []).
Proof.
  rewrite importer_metadata_classes.
  apply (java_no_declarer_no_relationship initial no_match_store importer
           _ main_classes).
  - vm_compute. discriminate.
  - vm_compute. reflexivity.
  - reflexivity.
  - intros x e _ He. change (software no_match_store) with [other; importer] in He.
    apply elem_of_cons in He as [->|He]; [vm_compute; apply not_elem_of_nil|].
    apply list_elem_of_singleton in He as ->.
    vm_compute. apply not_elem_of_nil.
Defined.

(** X6.  From declaration to relationship: when the index is built for the
    store and completes, an import of the subject that some entries declare
    as an export yields the relationship to the last of them in
    [sbom.software], provided that entry has a non-empty UUID and is not the
    subject. *)
Theorem java_import_resolves_to_last_declarer (cls : ExportDict) (sbom : SBOM)
    (subject : Software) (d : gmap string mdvalue)
    (java_classes : list (string * class_info))
    (pre post : list Software) (e : Software) (x : string) :
  sbom_ref cls ≠ Some (sbom_id sbom) →
  (create_export_dict cls sbom).2 = None →
  d !! "javaClasses" = Some (VClasses java_classes) →
  x ∈ declared_imports java_classes →
  software sbom = pre ++ e :: post →
  x ∈ declared_exports e →
  (∀ e', e' ∈ post → x ∉ declared_exports e') →
  UUID e ≠ "" → UUID e ≠ UUID subject →
  ∃ rels,
    (establish_relationships cls sbom subject (MdDict d)).1.2 = Ok (Some rels)
    ∧ uses (UUID subject) (UUID e) ∈ rels.
Proof.
  intros Hfresh Hexc Hd Hx Hsw He Hpost Hne Hself.
  rewrite (establish_relationships_on_classes _ _ _ _ java_classes) by done.
  eexists. split; [reflexivity|].
  rewrite resolve_classes_flat, resolve_lookups_elem. right.
  exists x, (UUID e). repeat split; try done.
  destruct (JavaFacts.export_index_rebuilt cls sbom Hfresh) as [_ Hindex].
  unfold get_supplier. rewrite Hindex, Hsw by done.
  by apply JavaFacts.index_of_last.
Qed.

Lemma java_import_resolves_to_last_declarer_witness :
  ∃ rels,
    (establish_relationships initial shadowed_store importer
       importer_metadata).1.2 = Ok (Some rels)
    ∧ uses "uuid-importer" "uuid-shadow" ∈ rels.
Proof.
  rewrite importer_metadata_classes.
  apply (java_import_resolves_to_last_declarer initial shadowed_store importer
           _ main_classes [supplier] [importer] shadow hello).
  - vm_compute. discriminate.
  - vm_compute. reflexivity.
  - reflexivity.
  - vm_compute. left.
  - reflexivity.
  - vm_compute. left.
  - intros e' He'. apply list_elem_of_singleton in He' as ->.
    vm_compute. apply not_elem_of_nil.
  - vm_compute. discriminate.
  - vm_compute. discriminate.
Defined.

(** X7.  A dict whose [javaClasses] is [None] passes [has_required_fields];
    the index scan skips it without raising, but as the metadata of the
    subject it makes [establish_relationships] raise [AttributeError], after
    the index has been built. *)
Theorem java_classes_none_raises (cls : ExportDict) (sbom : SBOM)
    (subject : Software) (d : gmap string mdvalue) :
  d !! "javaClasses" = Some VNone →
  has_required_fields (MdDict d) = true
  ∧ (∀ uuid supplied, scan_metadata uuid supplied (MdDict d) = (supplied, None))
  ∧ ((create_export_dict cls sbom).2 = None →
       establish_relationships cls sbom subject (MdDict d)
       = ((create_export_dict cls sbom).1, Raise AttributeError, [])).
Proof.
  intros Hd. unfold has_required_fields, scan_metadata, establish_relationships,
    has_required_fields.
  rewrite Hd. rewrite !bool_decide_eq_true_2 by (by eexists).
  repeat split. simpl.
  destruct (create_export_dict cls sbom) as [cls' exc]. simpl.
  by intros ->.
Qed.

Lemma java_classes_none_raises_witness :
  establish_relationships initial hello_store importer (MdDict none_classes)
  = ((create_export_dict initial hello_store).1, Raise AttributeError, []).
Proof.
  apply (java_classes_none_raises initial hello_store importer none_classes).
  - reflexivity.
  - vm_compute. reflexivity.
Defined.






Lemma index_of_None (m : gmap string string) (l : list Software) (x : string) :
  index_of m l !! x = None
  ↔ m !! x = None ∧ ∀ e, e ∈ l → x ∉ declared_exports e.
Proof.
  revert m. induction l as [|e l IH]; intros m.
  - split; [|by intros [? _]]. intros H. split; [done|].
    intros e He. by apply elem_of_nil in He.
  - change (index_of m (e :: l))
      with (index_of (insert_all (UUID e) m (declared_exports e)) l).
    rewrite IH, JavaFacts.insert_all_lookup. split.
    + intros [Hm Hl]. case_decide as Hin; [done|]. split; [done|].
      intros e' [->|He']%elem_of_cons; [done | by apply Hl].
    + intros [Hm Hl]. split.
      * rewrite decide_False; [done|]. apply Hl. left.
      * intros e' He'. apply Hl. by right.
Qed.

(** X9.  When the index is built for the store and completes,
    [get_supplier] answers [None] for a name exactly when no entry of the
    store declares it as an export. *)
Theorem java_unresolved_iff_undeclared (cls : ExportDict) (sbom : SBOM)
    (x : string) :
  sbom_ref cls ≠ Some (sbom_id sbom) →
  (create_export_dict cls sbom).2 = None →
  get_supplier (create_export_dict cls sbom).1 x = None
  ↔ ∀ e, e ∈ software sbom → x ∉ declared_exports e.
Proof.
  intros Hfresh Hexc.
  destruct (JavaFacts.export_index_rebuilt cls sbom Hfresh) as [_ Hindex].
  unfold get_supplier. rewrite Hindex by done. rewrite index_of_None.
  split; [by intros [_ ?] | by split].
Qed.

Lemma java_unresolved_iff_undeclared_witness :
  get_supplier (create_export_dict initial hello_store).1 "com.example.Absent"
  = None.
Proof.
  apply (java_unresolved_iff_undeclared initial hello_store "com.example.Absent").
  - vm_compute. discriminate.
  - vm_compute. reflexivity.
  - intros e He. change (software hello_store) with [supplier; importer] in He.
    apply elem_of_cons in He as [->|He].
    + vm_compute. intros [H|H]%elem_of_cons; [discriminate|].
      by apply elem_of_nil in H.
    + apply list_elem_of_singleton in He as ->.
      vm_compute. apply not_elem_of_nil.
Defined.

End JavaMore.

(** ** The PE resolver *)

Module PEMore.
Import PE Examples.

Section resolver.

Context (get_software_by_path : SBOM → string → bool → option Software)
        (find_installed_software : SBOM → list string → string → list Software)
        (normalize_path : string → string → string)
        (windows_parent : string → string).

#[local] Abbreviation probedirs_of := (PE.probedirs_of windows_parent).
#[local] Abbreviation phase1 :=
  (PE.phase1 get_software_by_path normalize_path windows_parent).
#[local] Abbreviation phase2 := (PE.phase2 find_installed_software windows_parent).
#[local] Abbreviation resolve_import :=
  (PE.resolve_import get_software_by_path find_installed_software
     normalize_path windows_parent).
#[local] Abbreviation get_windows_pe_dependencies :=
  (PE.get_windows_pe_dependencies get_software_by_path find_installed_software
     normalize_path windows_parent).
#[local] Abbreviation establish_relationships :=
  (PE.establish_relationships get_software_by_path find_installed_software
     normalize_path windows_parent).
#[local] Abbreviation structural_match :=
  (PE.structural_match get_software_by_path normalize_path windows_parent).
#[local] Abbreviation legacy_match :=
  (PE.legacy_match find_installed_software windows_parent).
#[local] Abbreviation resolved_uuids :=
  (PE.resolved_uuids get_software_by_path find_installed_software
     normalize_path windows_parent).
#[local] Abbreviation import_log :=
  (PE.import_log get_software_by_path find_installed_software normalize_path
     windows_parent).
#[local] Abbreviation field_relationships :=
  (PE.field_relationships get_software_by_path find_installed_software
     normalize_path windows_parent).

Lemma legacy_union_elem (m : gset string) (l : list Software) (u : string) :
  u ∈ foldl (λ m e, m ∪ {[UUID e]}) m l ↔ u ∈ m ∨ ∃ e, e ∈ l ∧ UUID e = u.
Proof.
  revert m. induction l as [|e l IH]; intros m; simpl.
  - split; [by left|]. intros [H|(e & He & _)]; [done|].
    by apply elem_of_nil in He.
  - rewrite IH, elem_of_union, elem_of_singleton. split.
    + intros [[H| ->]|(e' & He' & Hu)]; [by left | |].
      * right. exists e. split; [left|done].
      * right. exists e'. split; [by right|done].
    + intros [H|(e' & [->|He']%elem_of_cons & Hu)];
        [by left; left | by left; right | right; by exists e'].
Qed.

Lemma phase1_empty sbom sw fname :
  (phase1 sbom sw fname).1 = ∅ ↔ ∀ u, ¬ structural_match sbom sw fname u.
Proof.
  rewrite elem_of_equiv_empty_L.
  by setoid_rewrite (PEFacts.phase1_matched get_software_by_path
                       normalize_path windows_parent).
Qed.

Lemma resolved_uuids_elem sbom sw fname u :
  u ∈ resolved_uuids sbom sw fname
  ↔ structural_match sbom sw fname u
    ∨ ((∀ u', ¬ structural_match sbom sw fname u')
       ∧ legacy_match sbom sw fname u).
Proof.
  unfold PE.resolved_uuids, PE.phase2, PE.legacy_match.
  case_bool_decide as Hempty; cbn [fst].
  - rewrite legacy_union_elem, Hempty.
    pose proof (proj1 (phase1_empty sbom sw fname) Hempty) as Hno. split.
    + intros [?%not_elem_of_empty|H]; [done | by right].
    + intros [H|[_ H]]; [by destruct (Hno u) | by right].
  - rewrite (PEFacts.phase1_matched get_software_by_path normalize_path
               windows_parent).
    split; [by left|]. intros [H|[Hno _]]; [done|].
    by apply (proj2 (phase1_empty sbom sw fname)) in Hno.
Qed.

Lemma resolve_imports_elem sbom sw st peImports r :
  r ∈ (foldl (resolve_import sbom sw) st peImports).1
  ↔ r ∈ st.1
    ∨ ∃ fname u, fname ∈ peImports ∧ fname ≠ ""
                 ∧ u ∈ resolved_uuids sbom sw fname
                 ∧ r = uses (UUID sw) u.
Proof.
  revert st. induction peImports as [|fname l IH]; intros st; simpl.
  - split; [by left|]. intros [H|(f & u & Hf & _)]; [done|].
    by apply elem_of_nil in Hf.
  - rewrite IH. destruct (decide (fname = "")) as [->|Hne].
    + unfold PE.resolve_import at 1. rewrite bool_decide_eq_true_2 by done.
      split.
      * intros [H|(f & u & Hf & Hu)]; [by left|].
        right. exists f, u. split; [by right|done].
      * intros [H|(f & u & [->|Hf]%elem_of_cons & Hfne & Hu)];
          [by left | done | right; by exists f, u].
    + rewrite PEFacts.resolve_import_rels by done.
      rewrite PEFacts.emit_elem. fold (resolved_uuids sbom sw fname).
      setoid_rewrite elem_of_elements. split.
      * intros [[H|(u & Hu & ->)]|(f & u & Hf & Hu)]; [by left | |].
        -- right. exists fname, u. split; [left|done].
        -- right. exists f, u. split; [by right|done].
      * intros [H|(f & u & [->|Hf]%elem_of_cons & Hfne & Hu & ->)].
        -- by left; left.
        -- left. right. by exists u.
        -- right. by exists f, u.
Qed.

(** X10.  What [get_windows_pe_dependencies] returns for a subject with
    install paths: exactly the relationships from the subject, of kind
    [Uses], to a UUID that a non-empty import resolves to, which is either a
    structural match of that import or, when the import has no structural
    match at all, the UUID of an entry the legacy lookup returns for it. *)
Theorem pe_relationships_are_the_resolved_imports (sbom : SBOM) (sw : Software)
    (peImports : list string) (r : Relationship) :
  installPath sw ≠ None →
  r ∈ (get_windows_pe_dependencies sbom sw peImports).1
  ↔ ∃ fname u,
      fname ∈ peImports ∧ fname ≠ "" ∧ r = uses (UUID sw) u
      ∧ (structural_match sbom sw fname u
         ∨ ((∀ u', ¬ structural_match sbom sw fname u')
            ∧ legacy_match sbom sw fname u)).
Proof.
  intros Hpath. unfold PE.get_windows_pe_dependencies.
  destruct (installPath sw); [|done].
  rewrite resolve_imports_elem. simpl. split.
  - intros [?%elem_of_nil|(f & u & Hf & Hne & Hu & ->)]; [done|].
    exists f, u. by rewrite <- resolved_uuids_elem.
  - intros (f & u & Hf & Hne & -> & Hu). right. exists f, u.
    by rewrite resolved_uuids_elem.
Qed.

Lemma emit_extends dep rels us :
  ∃ extra, foldl (emit dep) rels us = rels ++ extra.
Proof.
  revert rels. induction us as [|u us IH]; intros rels; simpl.
  - exists []. by rewrite app_nil_r.
  - unfold emit at 2. fold (uses dep u). case_bool_decide; [apply IH|].
    destruct (IH (rels ++ [uses dep u])) as [extra ->].
    eexists. by rewrite <- app_assoc.
Qed.

Lemma resolve_imports_extend sbom sw st peImports :
  ∃ extra, (foldl (resolve_import sbom sw) st peImports).1 = st.1 ++ extra.
Proof.
  revert st. induction peImports as [|fname l IH]; intros st; simpl.
  - exists []. by rewrite app_nil_r.
  - destruct (IH (resolve_import sbom sw st fname)) as [extra ->].
    destruct (decide (fname = "")) as [->|Hne].
    + unfold PE.resolve_import. rewrite bool_decide_eq_true_2 by done.
      by exists extra.
    + rewrite PEFacts.resolve_import_rels by done.
      destruct (emit_extends (UUID sw) st.1
                  (elements (phase2 sbom sw fname (phase1 sbom sw fname).1).1))
        as [extra' ->].
      eexists. by rewrite <- app_assoc.
Qed.

(** X11.  Relationships and calls are only ever appended: the result for an
    import list that continues another starts with the result for that
    other list, and the log with its log, followed by the calls of the
    further imports. *)
Theorem pe_result_extends_prefix (sbom : SBOM) (sw : Software)
    (peImports more : list string) :
  ∃ extra,
    (get_windows_pe_dependencies sbom sw (peImports ++ more)).1
    = (get_windows_pe_dependencies sbom sw peImports).1 ++ extra
    ∧ (installPath sw ≠ None →
       (get_windows_pe_dependencies sbom sw (peImports ++ more)).2
       = (get_windows_pe_dependencies sbom sw peImports).2
         ++ (more ≫= import_log sbom sw)).
Proof.
  unfold PE.get_windows_pe_dependencies.
  destruct (installPath sw); [|by exists []].
  rewrite foldl_app.
  destruct (resolve_imports_extend sbom sw
              (foldl (resolve_import sbom sw) ([], []) peImports) more)
    as [extra Hextra].
  exists extra. split; [done|]. intros _.
  apply PEFacts.resolve_imports_log.
Qed.

Lemma emit_present dep rels us :
  (∀ u, u ∈ us → uses dep u ∈ rels) → foldl (emit dep) rels us = rels.
Proof.
  induction us as [|u us IH]; intros Hus; simpl; [done|].
  unfold emit at 2. rewrite bool_decide_eq_true_2 by (apply Hus; left).
  apply IH. intros u' Hu'. apply Hus. by right.
Qed.

(** X12.  An import that occurred earlier in the list adds no relationship
    when it occurs again. *)
Theorem pe_repeated_import_adds_nothing (sbom : SBOM) (sw : Software)
    (peImports : list string) (fname : string) :
  fname ∈ peImports →
  (get_windows_pe_dependencies sbom sw (peImports ++ [fname])).1
  = (get_windows_pe_dependencies sbom sw peImports).1.
Proof.
  intros Hin. unfold PE.get_windows_pe_dependencies.
  destruct (installPath sw); [|done].
  rewrite foldl_app. simpl.
  destruct (decide (fname = "")) as [->|Hne].
  - unfold PE.resolve_import. by rewrite bool_decide_eq_true_2.
  - rewrite PEFacts.resolve_import_rels by done.
    apply emit_present. intros u Hu%elem_of_elements.
    apply resolve_imports_elem. right. by exists fname, u.
Qed.

(** X13.  When an import table is present, [establish_relationships]
    returns the results of [peImport], [peBoundImport] and [peDelayImport],
    in that order, one after the other; a table that is absent contributes
    nothing, and the part of each table holds no relationship twice. *)
Theorem pe_hook_concatenates_tables (sbom : SBOM) (subject : Software)
    (d : gmap string mdvalue) :
  PE.has_required_fields (MdDict d) = Ok true →
  (establish_relationships sbom subject (MdDict d)).1
  = Ok (Some (field_relationships sbom subject d "peImport"
              ++ field_relationships sbom subject d "peBoundImport"
              ++ field_relationships sbom subject d "peDelayImport"))
  ∧ ∀ field, NoDup (field_relationships sbom subject d field).
Proof.
  intros Hreq. split.
  - unfold PE.establish_relationships. rewrite Hreq.
    unfold field_map, PE.field_relationships. cbn [foldl fst snd].
    destruct (d !! "peImport") as [v1|];
      [destruct (get_windows_pe_dependencies sbom subject (entries_of v1))|];
      (destruct (d !! "peBoundImport") as [v2|];
       [destruct (get_windows_pe_dependencies sbom subject (entries_of v2))|]);
      (destruct (d !! "peDelayImport") as [v3|];
       [destruct (get_windows_pe_dependencies sbom subject (entries_of v3))|]);
      cbn [fst snd app]; by rewrite ?app_nil_r, ?app_assoc.
  - intros field. unfold PE.field_relationships.
    destruct (d !! field); [|apply NoDup_nil_2].
    apply PEFacts.get_windows_pe_dependencies_NoDup.
Qed.

Lemma get_windows_pe_dependencies_nil sbom sw :
  get_windows_pe_dependencies sbom sw [] = ([], []).
Proof. unfold PE.get_windows_pe_dependencies. by destruct (installPath sw). Qed.

(** X14.  With an import table present, a subject without install path, or
    tables that are all [None] or empty, gives the empty list, not [None],
    and no call into the store. *)
Theorem pe_hook_returns_empty_list (sbom : SBOM) (subject : Software)
    (d : gmap string mdvalue) :
  PE.has_required_fields (MdDict d) = Ok true →
  installPath subject = None
  ∨ (∀ field v, field ∈ field_map.*1 → d !! field = Some v →
                entries_of v = []) →
  establish_relationships sbom subject (MdDict d) = (Ok (Some []), []).
Proof.
  intros Hreq Hcase. unfold PE.establish_relationships. rewrite Hreq.
  assert (∀ field v, field ∈ field_map.*1 → d !! field = Some v →
            get_windows_pe_dependencies sbom subject (entries_of v) = ([], []))
    as Hnil.
  { intros field v Hfield Hv. destruct Hcase as [Hnone|Hempty].
    - unfold PE.get_windows_pe_dependencies. by rewrite Hnone.
    - rewrite (Hempty field v Hfield Hv). apply get_windows_pe_dependencies_nil. }
  unfold field_map at 1. cbn [foldl fst snd].
  destruct (d !! "peImport") as [v1|] eqn:H1;
    [rewrite (Hnil "peImport" _ ltac:(set_solver) H1)|];
    (destruct (d !! "peBoundImport") as [v2|] eqn:H2;
     [rewrite (Hnil "peBoundImport" _ ltac:(set_solver) H2)|]);
    (destruct (d !! "peDelayImport") as [v3|] eqn:H3;
     [rewrite (Hnil "peDelayImport" _ ltac:(set_solver) H3)|]);
    reflexivity.
Qed.

End resolver.

(** The executable of the examples, importing [a.dll] (present), an empty
    name and [b.dll] (absent). *)
Lemma pe_relationships_are_the_resolved_imports_witness :
  uses "uuid-main" "uuid-a"
  ∈ (Model.pe_dependencies app_store main_exe ["a.dll"; ""; "b.dll"]).1.
Proof.
  apply (pe_relationships_are_the_resolved_imports Store.get_software_by_path
           WindowsUtils.find_installed_software Paths.normalize_path
           Paths.windows_parent app_store main_exe ["a.dll"; ""; "b.dll"]).
  - vm_compute. discriminate.
  - exists "a.dll", "uuid-a". split; [left|]. split; [discriminate|].
    split; [reflexivity|]. left.
    exists "C:/app", a_dll. split; [vm_compute; left|].
    split; [vm_compute; reflexivity|]. split; [reflexivity|].
    vm_compute. discriminate.
Defined.

Lemma pe_repeated_import_adds_nothing_witness :
  (Model.pe_dependencies app_store main_exe (["a.dll"; "b.dll"] ++ ["a.dll"])).1
  = (Model.pe_dependencies app_store main_exe ["a.dll"; "b.dll"]).1.
Proof.
  apply (pe_repeated_import_adds_nothing Store.get_software_by_path
           WindowsUtils.find_installed_software Paths.normalize_path
           Paths.windows_parent app_store main_exe ["a.dll"; "b.dll"] "a.dll").
  left.
Defined.

Lemma pe_hook_concatenates_tables_witness :
  (Model.pe_establish_relationships app_store main_exe main_metadata).1
  = Ok (Some ([uses "uuid-main" "uuid-a"] ++ [uses "uuid-main" "uuid-a"] ++ [])).
Proof.
  assert (PE.has_required_fields main_metadata = Ok true) as Hreq
    by (vm_compute; reflexivity).
  destruct (pe_hook_concatenates_tables Store.get_software_by_path
              WindowsUtils.find_installed_software Paths.normalize_path
              Paths.windows_parent app_store main_exe _ Hreq) as [H _].
  etrans; [exact H|]. vm_compute. reflexivity.
Defined.

Lemma pe_hook_returns_empty_list_witness :
  Model.pe_establish_relationships app_store main_exe (MdDict empty_tables)
  = (Ok (Some []), []).
Proof.
  apply (pe_hook_returns_empty_list Store.get_software_by_path
           WindowsUtils.find_installed_software Paths.normalize_path
           Paths.windows_parent app_store main_exe empty_tables).
  - vm_compute. reflexivity.
  - right. intros field v _ Hv. unfold empty_tables in Hv.
    apply lookup_singleton_Some in Hv as [_ <-]. reflexivity.
Defined.

End PEMore.
